(** * NOEMA Cognee service: the result normalizer of [CogneeClient.search]

    A shallow embedding of [apps/cognee_service/cognee_client.py]: the Python
    values the backend hands back, the exceptions the interpreter raises on
    them, the client's [initialize], [search] and [health_check] methods, and
    the properties of the response they build. *)

From Stdlib Require Import ZArith List String Ascii Bool Lia DecimalString DecimalNat.
From Stdlib Require Import Floats.SpecFloat.
Import ListNotations.

Local Open Scope Z_scope.
#[local] Set Warnings "-register-all".

(** ** Python floats: IEEE 754 binary64, as the Standard Library specifies it *)

Module F.

Definition prec : Z := 53.
Definition emax : Z := 1024.

Definition sub : spec_float -> spec_float -> spec_float := SFsub prec emax.
Definition mul : spec_float -> spec_float -> spec_float := SFmul prec emax.
Definition div : spec_float -> spec_float -> spec_float := SFdiv prec emax.

(** [float(z)] for a Python int: round to nearest, ties to even.  The only
    ints converted in this program are loop indices, which are below the
    length of a list (at most [2^63 - 1]), so the [OverflowError] of ints
    beyond the float range cannot arise. *)
Definition of_Z (z : Z) : spec_float := binary_normalize prec emax z 0 false.
Definition of_nat (n : nat) : spec_float := of_Z (Z.of_nat n).

(** A decimal literal [num/den] of the source text: the quotient of two
    exactly representable integers is the correctly rounded literal. *)
Definition lit (num den : Z) : spec_float := div (of_Z num) (of_Z den).

Definition zero : spec_float := S754_zero false.
Definition one : spec_float := of_Z 1.
Definition nan : spec_float := S754_nan.

End F.

(** ** Numbers as Python compares them

    [int], [bool] and [float] compare by exact value ([float_richcompare]
    compares a float with an int without rounding the int).  [xnum] is the
    extended dyadic number a Python number denotes: [XFin m e] is [m * 2^e]. *)

Inductive xnum : Type :=
| XNaN
| XInf (neg : bool)
| XFin (m e : Z).

Definition xnum_of_float (f : spec_float) : xnum :=
  match f with
  | S754_zero _ => XFin 0 0
  | S754_infinity s => XInf s
  | S754_nan => XNaN
  | S754_finite s m e => XFin (if s then Z.neg m else Z.pos m) e
  end.

Definition xfin_compare (m1 e1 m2 e2 : Z) : comparison :=
  let e := Z.min e1 e2 in
  Z.compare (m1 * 2 ^ (e1 - e)) (m2 * 2 ^ (e2 - e)).

(** [None] when the two are unordered (one of them is NaN). *)
Definition xnum_compare (a b : xnum) : option comparison :=
  match a, b with
  | XNaN, _ | _, XNaN => None
  | XInf s1, XInf s2 =>
      Some (match s1, s2 with
            | true, true | false, false => Eq
            | true, false => Lt
            | false, true => Gt
            end)
  | XInf s, XFin _ _ => Some (if s then Lt else Gt)
  | XFin _ _, XInf s => Some (if s then Gt else Lt)
  | XFin m1 e1, XFin m2 e2 => Some (xfin_compare m1 e1 m2 e2)
  end.

Definition xnum_ltb (a b : xnum) : bool :=
  match xnum_compare a b with Some Lt => true | _ => false end.
Definition xnum_leb (a b : xnum) : bool :=
  match xnum_compare a b with Some Lt | Some Eq => true | _ => false end.
Definition xnum_eqb (a b : xnum) : bool :=
  match xnum_compare a b with Some Eq => true | _ => false end.

(** ** Python values *)

(** The values a backend record is made of.  A [dict] is an insertion-ordered
    association list with string keys; an object of any other class is its
    identity and its attributes, its class defining no ordering, slicing,
    truth value, equality or hash of its own. *)
Inductive pyval : Type :=
| PNone
| PBool (b : bool)
| PInt (z : Z)
| PFloat (f : spec_float)
| PStr (s : string)
| PList (l : list pyval)
| PDict (d : list (string * pyval))
| PObj (oid : Z) (attrs : list (string * pyval)).

(** Every exception of the model is an instance of [Exception], which is what
    the two [except Exception] handlers of [search] catch. *)
Inductive exn : Type :=
| Exn (cls msg : string).

Definition TypeError : exn := Exn "TypeError" "".

Inductive outcome (A : Type) : Type :=
| Ok (a : A)
| Raise (e : exn).
Arguments Ok {A} a.
Arguments Raise {A} e.

Definition bind {A B : Type} (c : outcome A) (k : A -> outcome B) : outcome B :=
  match c with
  | Ok a => k a
  | Raise e => Raise e
  end.

Notation "x <- c ;; k" := (bind c (fun x => k))
  (at level 61, c at next level, right associativity).

Fixpoint assoc {A : Type} (k : string) (d : list (string * A)) : option A :=
  match d with
  | [] => None
  | (k', v) :: d' => if String.eqb k k' then Some v else assoc k d'
  end.

(** [d.get(k, default)] *)
Definition dict_get (d : list (string * pyval)) (k : string) (default : pyval) : pyval :=
  match assoc k d with
  | Some v => v
  | None => default
  end.

(** [k in d] *)
Definition dict_in (k : string) (d : list (string * pyval)) : bool :=
  match assoc k d with
  | Some _ => true
  | None => false
  end.

(** The attribute [v.name], when [v] has it.  No built-in value of the model
    has an attribute called [payload], [score] or [name]; only objects do. *)
Definition attr (v : pyval) (name : string) : option pyval :=
  match v with
  | PObj _ attrs => assoc name attrs
  | _ => None
  end.

(** [hasattr(v, name)] *)
Definition hasattr (v : pyval) (name : string) : bool :=
  match attr v name with
  | Some _ => true
  | None => false
  end.

(** [getattr(v, name, default)] *)
Definition getattr (v : pyval) (name : string) (default : pyval) : pyval :=
  match attr v name with
  | Some a => a
  | None => default
  end.

Definition nonempty (s : string) : bool :=
  match s with
  | EmptyString => false
  | String _ _ => true
  end.

(** Truth value of [if v:]. *)
Definition truthy (v : pyval) : bool :=
  match v with
  | PNone => false
  | PBool b => b
  | PInt z => negb (z =? 0)
  | PFloat (S754_zero _) => false
  | PFloat _ => true
  | PStr s => nonempty s
  | PList l => match l with [] => false | _ => true end
  | PDict d => match d with [] => false | _ => true end
  | PObj _ _ => true
  end.

(** Number of elements [x[:k]] keeps of a sequence of length [len]: a negative
    [k] counts from the end. *)
Definition slice_stop (len : nat) (k : Z) : nat :=
  if k <? 0 then Z.to_nat (Z.of_nat len + k) else Nat.min (Z.to_nat k) len.

(** [v[:k]]: strings and lists are sliced, anything else raises (a
    [TypeError]; for a [dict] the class of the exception depends on the
    interpreter's version, and every handler here catches either). *)
Definition py_slice_to (v : pyval) (k : Z) : outcome pyval :=
  match v with
  | PStr s => Ok (PStr (substring 0 (slice_stop (String.length s) k) s))
  | PList l => Ok (PList (firstn (slice_stop (List.length l) k) l))
  | _ => Raise TypeError
  end.

(** The elements a [for] loop draws from a sliced value: the elements of a
    list, the one-character strings of a string. *)
Definition py_iter (v : pyval) : list pyval :=
  match v with
  | PList l => l
  | PStr s => map (fun c => PStr (String c EmptyString)) (list_ascii_of_string s)
  | _ => []
  end.

Definition as_number (v : pyval) : option xnum :=
  match v with
  | PBool b => Some (XFin (if b then 1 else 0) 0)
  | PInt z => Some (XFin z 0)
  | PFloat f => Some (xnum_of_float f)
  | _ => None
  end.

(** [x < v] and [x > v] for a float [x]: defined against numbers, a
    [TypeError] against anything else. *)
Definition float_lt (x : spec_float) (v : pyval) : outcome bool :=
  match as_number v with
  | Some n => Ok (xnum_ltb (xnum_of_float x) n)
  | None => Raise TypeError
  end.

Definition float_gt (x : spec_float) (v : pyval) : outcome bool :=
  match as_number v with
  | Some n => Ok (xnum_ltb n (xnum_of_float x))
  | None => Raise TypeError
  end.

(** [max(a, b)] with [b] a float: the built-in keeps its first argument unless
    [b > a] holds. *)
Definition py_max (a : pyval) (b : spec_float) : outcome pyval :=
  gt <- float_gt b a ;;
  Ok (if gt then PFloat b else a).

(** [min(a, b)] with [b] a float: keeps [a] unless [b < a] holds. *)
Definition py_min (a : pyval) (b : spec_float) : outcome pyval :=
  lt <- float_lt b a ;;
  Ok (if lt then PFloat b else a).

(** The test [0.0 <= v <= 1.0] as Python evaluates it on a number. *)
Definition in_unit_interval (v : pyval) : bool :=
  match as_number v with
  | Some n => xnum_leb (xnum_of_float F.zero) n && xnum_leb n (xnum_of_float F.one)
  | None => false
  end.

(** ** Hashable values and the node set

    [seen_nodes] is a Python [set].  Adding a [list] or a [dict] raises
    [TypeError] (unhashable); equal keys are stored once.  Numbers are equal
    across [bool], [int] and [float] when their values are (NaN equals no
    number), objects are equal when they are the same object.  The set is kept as a duplicate-free list
    in order of first insertion: Python fixes no iteration order for a set
    and no property below depends on one. *)

Definition hashable (v : pyval) : bool :=
  match v with
  | PList _ | PDict _ => false
  | _ => true
  end.

Definition key_eqb (a b : pyval) : bool :=
  match a, b with
  | PNone, PNone => true
  | PStr s, PStr t => String.eqb s t
  | PObj i _, PObj j _ => i =? j
  | _, _ =>
      match as_number a, as_number b with
      | Some x, Some y => xnum_eqb x y
      | _, _ => false
      end
  end.

Definition set_add (v : pyval) (s : list pyval) : outcome (list pyval) :=
  if hashable v
  then Ok (if existsb (key_eqb v) s then s else s ++ [v])
  else Raise TypeError.

(** ** The client and what surrounds it *)

Inductive SearchType : Type :=
| INSIGHTS
| GRAPH_COMPLETION.

(** Everything [cognee_client.py] calls and does not define: the process
    environment, the filesystem, the [cognee] library and the interpreter's
    [repr].  Each call that can fail returns an [outcome]. *)
Record world : Type := {
  getenv : string -> option string;
  (** [cognee.config.set_llm_api_key(api_key)] *)
  set_llm_api_key : string -> outcome unit;
  (** [Path(data_dir).resolve()] followed by [mkdir(parents=True, exist_ok=True)];
      returns the absolute path as a string *)
  resolve_mkdir : string -> outcome string;
  (** [cognee.config.data_root_directory(path)] *)
  data_root_directory : string -> outcome unit;
  (** [await cognee.search(search_type, query_text=query)] *)
  cognee_search : SearchType -> string -> outcome pyval;
  (** [repr(v)] of a value that is not a string *)
  py_repr : pyval -> string
}.

(** [str(v)] *)
Definition py_str (w : world) (v : pyval) : string :=
  match v with
  | PStr s => s
  | _ => py_repr w v
  end.

Record CogneeClient : Type := {
  data_dir : string;
  _initialized : bool;
  _evidence_map : list (string * string)
}.

Record item : Type := {
  cognee_id : string;
  snippet : pyval;
  score : pyval;
  metadata : pyval
}.

Record edge : Type := {
  e_from : pyval;
  e_to : pyval;
  relation : pyval;
  weight : pyval
}.

Record graph : Type := {
  nodes : list pyval;
  edges : list edge
}.

Record response : Type := {
  items : list item;
  graph_context : option graph
}.

(** [_configure_llm()]: the key is handed to cognee when it is set and not
    empty; otherwise a warning is logged and nothing else happens. *)
Definition _configure_llm (w : world) : outcome unit :=
  match getenv w "OPENAI_API_KEY" with
  | Some api_key => if nonempty api_key then set_llm_api_key w api_key else Ok tt
  | None => Ok tt
  end.

(** [CogneeClient.initialize] *)
Definition initialize (w : world) (self : CogneeClient) : outcome CogneeClient :=
  if _initialized self then Ok self
  else
    _ <- _configure_llm w ;;
    data_path <- resolve_mkdir w (data_dir self) ;;
    _ <- data_root_directory w data_path ;;
    Ok {| data_dir := data_dir self;
          _initialized := true;
          _evidence_map := _evidence_map self |}.

(** [CogneeClient.health_check]: the client after the call and the answer. *)
Definition health_check (w : world) (self : CogneeClient) : CogneeClient * bool :=
  match initialize w self with
  | Ok self' => (self', true)
  | Raise _ => (self, false)
  end.

(** *** The primary loop of [search] *)

(** [1.0 - (i * 0.1)] *)
Definition fallback_score (i : nat) : spec_float :=
  F.sub F.one (F.mul (F.of_nat i) (F.lit 1 10)).

(** The three-way branch on the shape of a record: [(snippet, score, metadata)]
    before truncation and clamping.  Python evaluates the defaults of [get]
    and [getattr] before the call; they are pure here. *)
Definition extract (w : world) (i : nat) (result : pyval) : pyval * pyval * pyval :=
  match result with
  | PDict d =>
      (dict_get d "text" (dict_get d "content" (PStr (py_str w result))),
       dict_get d "score" (PFloat (fallback_score i)),
       dict_get d "metadata" (PDict []))
  | _ =>
      match attr result "payload" with
      | Some payload =>
          (PStr (py_str w payload),
           getattr result "score" (PFloat (fallback_score i)),
           PDict [])
      | None => (PStr (py_str w result), PFloat (fallback_score i), PDict [])
      end
  end.

(** [min(max(score, 0.0), 1.0)] *)
Definition clamp (score : pyval) : outcome pyval :=
  m <- py_max score F.zero ;;
  py_min m F.one.

Definition result_id (i : nat) : string :=
  ("result_" ++ NilEmpty.string_of_uint (Nat.to_uint i))%string.

(** The dict literal appended to [items]; building it raises when the slice
    or the clamp does. *)
Definition make_item (w : world) (i : nat) (result : pyval) : outcome item :=
  let '(snip, sc, md) := extract w i result in
  snip' <- py_slice_to snip 500 ;;
  sc' <- clamp sc ;;
  Ok {| cognee_id := result_id i; snippet := snip'; score := sc'; metadata := md |}.

(** The [for i, result in enumerate(...)] loop over the records still to
    come, [i] being the index of the first of them.  [items] is the list
    mutated in place: when a record raises, what was appended so far stays. *)
Fixpoint process_results (w : world) (i : nat) (rs : list pyval) (items : list item)
  : list item * option exn :=
  match rs with
  | [] => (items, None)
  | r :: rs' =>
      match make_item w i r with
      | Ok it => process_results w (S i) rs' (items ++ [it])
      | Raise e => (items, Some e)
      end
  end.

(** Lines 167-196: the primary query and the loop.  [Some e] is the exception
    that reaches the outer handler. *)
Definition primary_phase (w : world) (query : string) (top_k : Z)
  : list item * option exn :=
  match cognee_search w INSIGHTS query with
  | Raise e => ([], Some e)
  | Ok search_results =>
      if truthy search_results
      then match py_slice_to search_results top_k with
           | Raise e => ([], Some e)
           | Ok sl => process_results w 0 (py_iter sl) []
           end
      else ([], None)
  end.

(** *** The graph loop of [search] *)

(** The edge appended for a mapping [d] whose [source] and [target] are
    [src] and [tgt]. *)
Definition make_edge (d : list (string * pyval)) (src tgt : pyval) : edge :=
  {| e_from := src;
     e_to := tgt;
     relation := dict_get d "relation" (PStr "related_to");
     weight := dict_get d "weight" (PFloat (F.lit 5 10)) |}.

(** One iteration of the graph loop on the pair ([seen_nodes],
    [graph_context["edges"]]).  The second component of the answer is the
    edge list as the iteration leaves it, whether or not it raised. *)
Definition graph_step (w : world) (seen : list pyval) (es : list edge) (result : pyval)
  : outcome (list pyval) * list edge :=
  match attr result "name" with
  | Some name => (set_add (PStr (py_str w name)) seen, es)
  | None =>
      match result with
      | PDict d =>
          match (match assoc "name" d with
                 | Some name => set_add name seen
                 | None => Ok seen
                 end) with
          | Raise e => (Raise e, es)
          | Ok seen' =>
              (Ok seen',
               match assoc "source" d, assoc "target" d with
               | Some src, Some tgt => es ++ [make_edge d src tgt]
               | _, _ => es
               end)
          end
      | _ => (Ok seen, es)
      end
  end.

Fixpoint graph_loop (w : world) (rs : list pyval) (seen : list pyval) (es : list edge)
  : outcome (list pyval) * list edge :=
  match rs with
  | [] => (Ok seen, es)
  | r :: rs' =>
      match graph_step w seen es r with
      | (Ok seen', es') => graph_loop w rs' seen' es'
      | (Raise e, es') => (Raise e, es')
      end
  end.

Definition empty_graph : graph := {| nodes := []; edges := [] |}.

(** Lines 199-225: the inner [try].  [graph_context["nodes"]] is assigned
    only when the loop ends normally; the edges are appended in place and
    survive the inner handler. *)
Definition graph_phase (w : world) (query : string) (top_k : Z) : graph :=
  match cognee_search w GRAPH_COMPLETION query with
  | Raise _ => empty_graph
  | Ok graph_results =>
      if truthy graph_results
      then match py_slice_to graph_results top_k with
           | Raise _ => empty_graph
           | Ok sl =>
               match graph_loop w (py_iter sl) [] [] with
               | (Ok seen, es) => {| nodes := seen; edges := es |}
               | (Raise _, es) => {| nodes := []; edges := es |}
               end
           end
      else empty_graph
  end.

(** The locals [items] and [graph_context] when control reaches the
    [return] of [search]. *)
Definition search_locals (w : world) (query : string) (top_k : Z) : list item * graph :=
  match primary_phase w query top_k with
  | (its, Some _) => (its, empty_graph)
  | (its, None) => (its, graph_phase w query top_k)
  end.

(** [graph_context if graph_context["nodes"] or graph_context["edges"] else None] *)
Definition graph_or_none (g : graph) : option graph :=
  match nodes g, edges g with
  | [], [] => None
  | _, _ => Some g
  end.

(** [CogneeClient.search].  [initialize] runs before the [try]: what it
    raises is not caught here. *)
Definition search (w : world) (self : CogneeClient) (query : string) (top_k : Z)
  : outcome (CogneeClient * response) :=
  self' <- initialize w self ;;
  let '(its, gc) := search_locals w query top_k in
  Ok (self', {| items := its; graph_context := graph_or_none gc |}).

(** Whether one iteration of the graph loop adds a node name, or appends an
    edge, for a record it processes without raising. *)
Definition yields_node (r : pyval) : bool :=
  hasattr r "name" || match r with PDict d => dict_in "name" d | _ => false end.

Definition yields_edge (r : pyval) : bool :=
  match r with
  | PDict d => dict_in "source" d && dict_in "target" d
  | _ => false
  end.

Definition collects_nothing (r : pyval) : bool :=
  negb (yields_node r || yields_edge r).

(** The clamp as the specification words it, [max(0.0, min(1.0, score))]:
    [min] keeps [1.0] unless [score < 1.0], then [max] keeps [0.0] unless the
    result is above it. *)
Definition clamp_as_specified (score : pyval) : outcome pyval :=
  below <- float_gt F.one score ;;
  let m := if below then score else PFloat F.one in
  above <- float_lt F.zero m ;;
  Ok (if above then m else PFloat F.zero).

(** ** Ingestion, indexing and the singleton *)

(** The two calls of the [cognee] library that write: [await
    cognee.add(text, dataset_name=name)] and [await cognee.cognify()]. *)
Record indexing : Type := {
  cognee_add : string -> string -> outcome unit;
  cognee_cognify : outcome unit
}.

(** [d[k] = v]: an existing key keeps its place and takes the new value, a
    new key goes last. *)
Fixpoint dict_set {A : Type} (k : string) (v : A) (d : list (string * A))
  : list (string * A) :=
  match d with
  | [] => [(k, v)]
  | (k', v') :: d' =>
      if String.eqb k k' then (k, v) :: d' else (k', v') :: dict_set k v d'
  end.

(** [d.update(other)] *)
Definition dict_update {A : Type} (d other : list (string * A)) : list (string * A) :=
  fold_left (fun acc kv => dict_set (fst kv) (snd kv) acc) other d.

Definition newline : string := String (ascii_of_nat 10) EmptyString.

(** [f"[{content_type}] [source: {metadata.get('source', 'unknown')}]\n{content}"] *)
Definition enriched_content (w : world) (content_type : string)
           (metadata : list (string * pyval)) (content : string) : string :=
  ("[" ++ content_type ++ "] [source: "
       ++ py_str w (dict_get metadata "source" (PStr "unknown")) ++ "]"
       ++ newline ++ content)%string.

(** [CogneeClient.ingest]: the client as the call leaves it, and what the
    call returns or raises. *)
Definition ingest (w : world) (b : indexing) (self : CogneeClient)
           (evidence_id content content_type : string)
           (metadata : list (string * pyval)) : CogneeClient * outcome string :=
  match initialize w self with
  | Raise e => (self, Raise e)
  | Ok self1 =>
      match cognee_add b (enriched_content w content_type metadata content)
                       ("evidence_" ++ evidence_id)%string with
      | Raise e => (self1, Raise e)
      | Ok _ =>
          let cognee_id := ("cognee_" ++ evidence_id)%string in
          ({| data_dir := data_dir self1;
              _initialized := _initialized self1;
              _evidence_map := dict_set evidence_id cognee_id (_evidence_map self1) |},
           Ok cognee_id)
      end
  end.

(** [CogneeClient.cognify] *)
Definition cognify (w : world) (b : indexing) (self : CogneeClient)
  : CogneeClient * outcome unit :=
  match initialize w self with
  | Raise e => (self, Raise e)
  | Ok self1 => (self1, cognee_cognify b)
  end.

(** [CogneeClient.__init__]: [data_dir or os.getenv("COGNEE_DATA_DIR",
    "./cognee_data")]. *)
Definition __init__ (w : world) (dir : option string) : CogneeClient :=
  let from_env := match getenv w "COGNEE_DATA_DIR" with
                  | Some v => v
                  | None => "./cognee_data"%string
                  end in
  {| data_dir := match dir with
                 | Some d => if nonempty d then d else from_env
                 | None => from_env
                 end;
     _initialized := false;
     _evidence_map := [] |}.

(** [get_cognee_client()] on the module-level [_client]: the global as the
    call leaves it, and the client returned, which is that global. *)
Definition get_cognee_client (w : world) (_client : option CogneeClient)
  : option CogneeClient * CogneeClient :=
  match _client with
  | Some c => (Some c, c)
  | None => let c := __init__ w None in (Some c, c)
  end.

(** [str(e)] *)
Definition exn_str (e : exn) : string :=
  match e with Exn _ msg => msg end.

(** *** The endpoints of [main.py]

    Each endpoint runs on the module-level client and leaves it as the
    method it called left it. *)

Module Main.

Inductive http (A : Type) : Type :=
| Returned (a : A)
| HTTPException (status_code : Z) (detail : string).
Arguments Returned {A} a.
Arguments HTTPException {A} status_code detail.

Record HealthResponse : Type := {
  health_status : string;
  health_message : option string
}.

Record CognifyResponse : Type := {
  cognify_status : string;
  cognify_message : option string
}.

Record IngestResponse : Type := {
  cognee_id : string
}.

Inductive ContentType : Type :=
| text
| log
| screenshot_ocr
| transcript.

Definition content_type_str (t : ContentType) : string :=
  match t with
  | text => "text"
  | log => "log"
  | screenshot_ocr => "screenshot_ocr"
  | transcript => "transcript"
  end.

Record IngestMetadata : Type := {
  source : string;
  timestamp : string;
  extra : option (list (string * pyval))
}.

Record IngestRequest : Type := {
  evidence_id : string;
  content : string;
  content_type : ContentType;
  metadata : IngestMetadata
}.

(** The local [metadata] of [ingest_evidence]: the two declared fields,
    updated with [extra] when it is there and not empty. *)
Definition request_metadata (request : IngestRequest) : list (string * pyval) :=
  let md := [("source"%string, PStr (source (metadata request)));
             ("timestamp"%string, PStr (timestamp (metadata request)))] in
  match extra (metadata request) with
  | Some (kv :: more) => dict_update md (kv :: more)
  | _ => md
  end.

(** [POST /ingest] *)
Definition ingest_evidence (w : world) (b : indexing) (_client : option CogneeClient)
           (request : IngestRequest) : option CogneeClient * http IngestResponse :=
  let '(_, client) := get_cognee_client w _client in
  match ingest w b client (evidence_id request) (content request)
               (content_type_str (content_type request)) (request_metadata request) with
  | (client', Ok id) => (Some client', Returned {| cognee_id := id |})
  | (client', Raise e) =>
      (Some client', HTTPException 500 ("Ingest failed: " ++ exn_str e)%string)
  end.

(** [POST /cognify] *)
Definition run_cognify (w : world) (b : indexing) (_client : option CogneeClient)
  : option CogneeClient * http CognifyResponse :=
  let '(_, client) := get_cognee_client w _client in
  match cognify w b client with
  | (client', Ok _) =>
      (Some client',
       Returned {| cognify_status := "completed"; cognify_message := None |})
  | (client', Raise e) =>
      (Some client',
       Returned {| cognify_status := "error"; cognify_message := Some (exn_str e) |})
  end.

(** [GET /health] *)
Definition health_check (w : world) (_client : option CogneeClient)
  : option CogneeClient * http HealthResponse :=
  let '(_, client) := get_cognee_client w _client in
  let '(client', is_healthy) := health_check w client in
  (Some client',
   Returned (if is_healthy
             then {| health_status := "ok"; health_message := None |}
             else {| health_status := "error";
                     health_message := Some "Cognee initialization failed"%string |})).

End Main.

(** The edge one iteration of the graph loop appends for a record, if any. *)
Definition edge_of (r : pyval) : list edge :=
  match attr r "name" with
  | Some _ => []
  | None =>
      match r with
      | PDict d =>
          match assoc "source" d, assoc "target" d with
          | Some src, Some tgt => [make_edge d src tgt]
          | _, _ => []
          end
      | _ => []
      end
  end.

(** Whether one iteration of the graph loop gets through a record without
    raising: the only step that can raise is adding the [name] of a mapping
    to the set, which it does when that value is unhashable. *)
Definition name_hashable (r : pyval) : bool :=
  match attr r "name" with
  | Some _ => true
  | None =>
      match r with
      | PDict d =>
          match assoc "name" d with
          | Some name => hashable name
          | None => true
          end
      | _ => true
      end
  end.

(** No entry of the list equals, as a set key, an entry before it. *)
Definition key_distinct (s : list pyval) : Prop :=
  forall i j a b, (i < j)%nat ->
                  nth_error s i = Some a -> nth_error s j = Some b ->
                  key_eqb b a = false.

(** ** Sample surroundings

    The test doubles the examples below run the client against: a backend
    whose two queries answer as given, a filesystem and a configuration that
    accept everything, and a [repr] that prints a placeholder. *)

Definition sample_world (api_key : option string) (primary graph_answer : outcome pyval)
  : world :=
  {| getenv := fun name => if String.eqb name "OPENAI_API_KEY" then api_key else None;
     set_llm_api_key := fun _ => Ok tt;
     resolve_mkdir := fun d => Ok ("/srv/" ++ d)%string;
     data_root_directory := fun _ => Ok tt;
     cognee_search := fun t _ =>
       match t with
       | INSIGHTS => primary
       | GRAPH_COMPLETION => graph_answer
       end;
     py_repr := fun _ => "<repr>"%string |}.

Definition fresh_client : CogneeClient :=
  {| data_dir := "cognee_data"; _initialized := false; _evidence_map := [] |}.

Definition ready_client : CogneeClient :=
  {| data_dir := "cognee_data"; _initialized := true; _evidence_map := [] |}.

Definition backend_down : exn := Exn "ConnectionError" "backend unreachable".

(** [{"text": text, "score": score}] *)
Definition text_record (text : string) (sc : pyval) : pyval :=
  PDict [("text"%string, PStr text); ("score"%string, sc)].

Definition text_item (i : nat) (text : string) (sc : pyval) : item :=
  {| cognee_id := result_id i; snippet := PStr text; score := sc; metadata := PDict [] |}.

Fixpoint repeat_char (c : ascii) (n : nat) : string :=
  match n with
  | O => EmptyString
  | S n' => String c (repeat_char c n')
  end.

Definition nine_tenths : pyval := PFloat (F.lit 9 10).

(** Three records the loop accepts. *)
Definition three_records : list pyval :=
  [text_record "a" nine_tenths; text_record "b" nine_tenths; text_record "c" nine_tenths].

(** [{"text": None}]: [None[:500]] raises. *)
Definition null_text_record : pyval := PDict [("text"%string, PNone)].

(** [{"source": "X", "target": "Y"}] and the edge it stands for. *)
Definition xy_record : pyval :=
  PDict [("source"%string, PStr "X"); ("target"%string, PStr "Y")].

Definition xy_edge : edge :=
  {| e_from := PStr "X"; e_to := PStr "Y";
     relation := PStr "related_to"; weight := PFloat (F.lit 5 10) |}.

(** [{"name": ["n"], "source": "X", "target": "Y"}]: the name is a list. *)
Definition list_name_record : pyval :=
  PDict [("name"%string, PList [PStr "n"]);
         ("source"%string, PStr "X"); ("target"%string, PStr "Y")].

Definition sample_indexing (add_answer cognify_answer : outcome unit) : indexing :=
  {| cognee_add := fun _ _ => add_answer; cognee_cognify := cognify_answer |}.

(** A surrounding in which the data directory cannot be created. *)
Definition read_only_world : world :=
  {| getenv := fun _ => None;
     set_llm_api_key := fun _ => Ok tt;
     resolve_mkdir := fun _ => Raise (Exn "PermissionError" "read-only file system");
     data_root_directory := fun _ => Ok tt;
     cognee_search := fun _ _ => Raise backend_down;
     py_repr := fun _ => "<repr>"%string |}.

(** An object with a payload and a score attribute, and one with neither. *)
Definition payload_object (sc : pyval) : pyval :=
  PObj 1 [("payload"%string, PStr "p"); ("score"%string, sc)].

Definition bare_object : pyval := PObj 2 [].

(** An object whose [name] attribute is the given string. *)
Definition named_object (oid : Z) (name : string) : pyval :=
  PObj oid [("name"%string, PStr name)].

(** A request whose [extra] renames the source. *)
Definition sample_request : Main.IngestRequest :=
  {| Main.evidence_id := "e1";
     Main.content := "disk full";
     Main.content_type := Main.log;
     Main.metadata :=
       {| Main.source := "sensor";
          Main.timestamp := "2024-01-01T00:00:00Z";
          Main.extra := Some [("source"%string, PStr "override")] |} |}.

Definition disk_error : exn := Exn "OSError" "disk full".

(** [{"name": ["n"]}]: a mapping whose name is a list, and nothing else. *)
Definition list_name_only_record : pyval :=
  PDict [("name"%string, PList [PStr "n"])].

(** [{"text": "A"*600, "score": 0.9}] *)
Definition long_text_record : pyval :=
  text_record (repeat_char "A" 600) nine_tenths.

(** [{"content": "c"}]: no [text], no [score], no [metadata]. *)
Definition content_only_record : pyval :=
  PDict [("content"%string, PStr "c")].

(** ** Auxiliary facts *)

Lemma process_results_acc (w : world) (rs : list pyval) :
  forall (i : nat) (acc : list item),
    process_results w i rs acc =
    (acc ++ fst (process_results w i rs []), snd (process_results w i rs [])).
Proof.
  induction rs as [|r rs IH]; intros i acc; cbn [process_results].
  - now rewrite app_nil_r.
  - destruct (make_item w i r) as [it|e]; cbn [fst snd].
    + rewrite (IH (S i) (acc ++ [it])), (IH (S i) ([] ++ [it])).
      cbn [fst snd app]. now rewrite <- app_assoc.
    + now rewrite app_nil_r.
Qed.

Lemma process_results_cons_ok (w : world) (i : nat) (r : pyval) (rs : list pyval) (it : item) :
  make_item w i r = Ok it ->
  process_results w i (r :: rs) [] =
  (it :: fst (process_results w (S i) rs []), snd (process_results w (S i) rs [])).
Proof.
  intros H. cbn [process_results]. rewrite H.
  now rewrite process_results_acc.
Qed.

(** The loop appends at most one item per record. *)
Lemma process_results_length (w : world) (rs : list pyval) :
  forall i, (List.length (fst (process_results w i rs [])) <= List.length rs)%nat.
Proof.
  induction rs as [|r rs IH]; intros i.
  - cbn. lia.
  - destruct (make_item w i r) as [it|e] eqn:E.
    + rewrite (process_results_cons_ok _ _ _ _ _ E). cbn [fst List.length].
      specialize (IH (S i)). lia.
    + cbn [process_results]. rewrite E. cbn. lia.
Qed.

(** The item at position [j] of the output is the one built from the record
    at position [j], with its index. *)
Lemma process_results_nth (w : world) (rs : list pyval) :
  forall i j it,
    nth_error (fst (process_results w i rs [])) j = Some it ->
    exists r, nth_error rs j = Some r /\ make_item w (i + j) r = Ok it.
Proof.
  induction rs as [|r rs IH]; intros i j it H.
  - cbn in H. destruct j; discriminate.
  - destruct (make_item w i r) as [it0|e] eqn:E.
    + rewrite (process_results_cons_ok _ _ _ _ _ E) in H. cbn [fst] in H.
      destruct j as [|j].
      * cbn in H. injection H as <-. exists r. split; [reflexivity|].
        now rewrite Nat.add_0_r.
      * cbn [nth_error] in H. destruct (IH _ _ _ H) as [r' [Hr Hm]].
        exists r'. split; [exact Hr|].
        now replace (i + S j)%nat with (S i + j)%nat by lia.
    + cbn [process_results] in H. rewrite E in H. cbn in H.
      destruct j; discriminate.
Qed.

(** A record that raises ends the loop with what the records before it gave. *)
Lemma process_results_stop (w : world) (pre : list pyval) :
  forall i its r post e,
    process_results w i pre [] = (its, None) ->
    make_item w (i + List.length pre) r = Raise e ->
    process_results w i (pre ++ r :: post) [] = (its, Some e).
Proof.
  induction pre as [|p pre IH]; intros i its r post e Hpre Hr.
  - cbn in Hpre. injection Hpre as <-. cbn [app process_results List.length] in *.
    rewrite Nat.add_0_r in Hr. now rewrite Hr.
  - cbn [app]. destruct (make_item w i p) as [it|e0] eqn:E.
    + rewrite (process_results_cons_ok _ _ _ _ _ E) in Hpre.
      rewrite (process_results_cons_ok _ _ _ _ _ E).
      injection Hpre as Hits Hnone.
      assert (Hrec : process_results w (S i) pre [] =
                     (fst (process_results w (S i) pre []), None)).
      { rewrite <- Hnone. now destruct (process_results w (S i) pre []). }
      cbn [List.length] in Hr.
      replace (i + S (List.length pre))%nat with (S i + List.length pre)%nat in Hr by lia.
      rewrite (IH _ _ _ post _ Hrec Hr). cbn [fst snd]. now rewrite Hits.
    + cbn [process_results] in Hpre. rewrite E in Hpre. discriminate.
Qed.

Lemma process_results_complete (w : world) (rs : list pyval) :
  forall i its,
    process_results w i rs [] = (its, None) -> List.length its = List.length rs.
Proof.
  induction rs as [|r rs IH]; intros i its H.
  - cbn in H. now injection H as <-.
  - destruct (make_item w i r) as [it|e] eqn:E.
    + rewrite (process_results_cons_ok _ _ _ _ _ E) in H. injection H as <- Hn.
      cbn [List.length]. f_equal. apply (IH (S i)).
      rewrite <- Hn. now destruct (process_results w (S i) rs []).
    + cbn [process_results] in H. rewrite E in H. discriminate.
Qed.

Lemma slice_stop_le (len : nat) (k : Z) : (slice_stop len k <= len)%nat.
Proof. unfold slice_stop. destruct (k <? 0) eqn:E; [apply Z.ltb_lt in E|]; lia. Qed.

Lemma slice_stop_nonneg (len : nat) (k : Z) :
  0 <= k -> Z.of_nat (slice_stop len k) <= k.
Proof. intros H. unfold slice_stop. destruct (k <? 0) eqn:E; [apply Z.ltb_lt in E|]; lia. Qed.

(** What the primary phase does with a backend answer that is a list. *)
Lemma primary_phase_list (w : world) (query : string) (top_k : Z) (R : list pyval) :
  cognee_search w INSIGHTS query = Ok (PList R) ->
  primary_phase w query top_k =
  process_results w 0 (firstn (slice_stop (List.length R) top_k) R) [].
Proof.
  intros H. unfold primary_phase. rewrite H.
  destruct R as [|r R]; [|reflexivity].
  cbn [truthy List.length]. now rewrite firstn_nil.
Qed.

Lemma search_locals_items (w : world) (query : string) (top_k : Z) :
  fst (search_locals w query top_k) = fst (primary_phase w query top_k).
Proof.
  unfold search_locals. now destruct (primary_phase w query top_k) as [its [e|]].
Qed.

(** [search] answers whenever [initialize] does, with the two locals. *)
Lemma search_unfold (w : world) (self self' : CogneeClient) (query : string) (top_k : Z) :
  initialize w self = Ok self' ->
  search w self query top_k =
  Ok (self', {| items := fst (search_locals w query top_k);
                graph_context := graph_or_none (snd (search_locals w query top_k)) |}).
Proof.
  intros H. unfold search. rewrite H. cbn [bind].
  now destruct (search_locals w query top_k).
Qed.

Lemma search_inv (w : world) (self self' : CogneeClient) (query : string) (top_k : Z)
      (resp : response) :
  search w self query top_k = Ok (self', resp) ->
  initialize w self = Ok self' /\
  items resp = fst (search_locals w query top_k) /\
  graph_context resp = graph_or_none (snd (search_locals w query top_k)).
Proof.
  unfold search. destruct (initialize w self) as [c|e]; cbn [bind]; [|discriminate].
  destruct (search_locals w query top_k) as [its gc]. intros H.
  injection H as -> <-. now cbn.
Qed.

(** *** Order facts behind the clamp *)

Lemma xnum_ltb_false_leb (a b : xnum) :
  a <> XNaN -> b <> XNaN -> xnum_ltb a b = false -> xnum_leb b a = true.
Proof.
  intros Ha Hb. unfold xnum_ltb, xnum_leb.
  destruct a as [|sa|ma ea], b as [|sb|mb eb]; try congruence; cbn [xnum_compare].
  - destruct sa, sb; congruence.
  - destruct sa; congruence.
  - destruct sb; congruence.
  - unfold xfin_compare. rewrite (Z.min_comm eb ea).
    rewrite (Z.compare_antisym (ma * 2 ^ (ea - Z.min ea eb))).
    destruct (ma * 2 ^ (ea - Z.min ea eb) ?= mb * 2 ^ (eb - Z.min ea eb));
      cbn; congruence.
Qed.

Lemma xnum_ltb_asym (a b : xnum) : xnum_ltb a b = true -> xnum_ltb b a = false.
Proof.
  unfold xnum_ltb.
  destruct a as [|sa|ma ea], b as [|sb|mb eb]; cbn [xnum_compare]; try congruence.
  - destruct sa, sb; congruence.
  - destruct sa; congruence.
  - destruct sb; congruence.
  - unfold xfin_compare. rewrite (Z.min_comm eb ea).
    rewrite (Z.compare_antisym (ma * 2 ^ (ea - Z.min ea eb))).
    destruct (ma * 2 ^ (ea - Z.min ea eb) ?= mb * 2 ^ (eb - Z.min ea eb));
      cbn; congruence.
Qed.

Lemma xnum_trichotomy (a b : xnum) :
  a <> XNaN -> b <> XNaN ->
  xnum_ltb a b = false -> xnum_ltb b a = false -> xnum_eqb a b = true.
Proof.
  intros Ha Hb. unfold xnum_ltb, xnum_eqb.
  destruct a as [|sa|ma ea], b as [|sb|mb eb]; try congruence; cbn [xnum_compare].
  - destruct sa, sb; congruence.
  - destruct sa; congruence.
  - destruct sb; congruence.
  - unfold xfin_compare. rewrite (Z.min_comm eb ea).
    rewrite (Z.compare_antisym (ma * 2 ^ (ea - Z.min ea eb))).
    destruct (ma * 2 ^ (ea - Z.min ea eb) ?= mb * 2 ^ (eb - Z.min ea eb));
      cbn; congruence.
Qed.

Lemma xnum_eqb_refl (a : xnum) : a <> XNaN -> xnum_eqb a a = true.
Proof.
  intros Ha. unfold xnum_eqb. destruct a as [|sa|ma ea]; try congruence; cbn [xnum_compare].
  - now destruct sa.
  - unfold xfin_compare. now rewrite Z.compare_refl.
Qed.

(** What is below [0.0] is below [1.0]. *)
Lemma xnum_below_zero_below_one (n : xnum) :
  xnum_ltb n (xnum_of_float F.zero) = true -> xnum_ltb n (xnum_of_float F.one) = true.
Proof.
  change (xnum_of_float F.zero) with (XFin 0 0).
  change (xnum_of_float F.one) with (XFin 4503599627370496 (-52)).
  unfold xnum_ltb. destruct n as [|s|m e]; cbn [xnum_compare]; try congruence.
  unfold xfin_compare.
  assert (H1 : 0 < 2 ^ (e - Z.min e 0)) by (apply Z.pow_pos_nonneg; lia).
  assert (H2 : 0 < 2 ^ (e - Z.min e (-52))) by (apply Z.pow_pos_nonneg; lia).
  assert (H3 : 0 < 2 ^ (-52 - Z.min e (-52))) by (apply Z.pow_pos_nonneg; lia).
  revert H1 H2 H3.
  generalize (2 ^ (e - Z.min e 0)), (2 ^ (e - Z.min e (-52))),
    (2 ^ (-52 - Z.min e (-52))), (2 ^ (0 - Z.min e 0)).
  intros p1 p2 p3 p0 H1 H2 H3.
  destruct (m * p1 ?= 0 * p0) eqn:E0; try discriminate.
  intros _. change (m * p1 < 0 * p0) in E0.
  assert (Hm : m < 0) by nia.
  assert (Hlt : m * p2 < 4503599627370496 * p3) by nia.
  unfold Z.lt in Hlt. now rewrite Hlt.
Qed.

Lemma key_eqb_number (a b : pyval) (x y : xnum) :
  as_number a = Some x -> as_number b = Some y -> key_eqb a b = xnum_eqb x y.
Proof.
  intros Ha Hb.
  destruct a; try discriminate Ha; destruct b; try discriminate Hb;
    cbn in *; injection Ha as <-; injection Hb as <-; reflexivity.
Qed.

(** Away from NaN the clamp of the code and the formula of the specification
    give numbers that are equal. *)
Lemma clamp_agrees_with_specification (sc : pyval) (n : xnum) :
  as_number sc = Some n -> n <> XNaN ->
  exists v v', clamp sc = Ok v /\ clamp_as_specified sc = Ok v' /\ key_eqb v v' = true.
Proof.
  intros Hn Hnan.
  assert (H0 : xnum_of_float F.zero <> XNaN) by discriminate.
  assert (H1 : xnum_of_float F.one <> XNaN) by discriminate.
  unfold clamp, clamp_as_specified, py_max, py_min, float_gt, float_lt.
  rewrite Hn. cbn [bind].
  destruct (xnum_ltb n (xnum_of_float F.zero)) eqn:Elo.
  - rewrite (xnum_below_zero_below_one _ Elo). rewrite Hn. cbn [bind].
    rewrite (xnum_ltb_asym _ _ Elo). cbn [as_number bind].
    exists (PFloat F.zero), (PFloat F.zero). repeat split; reflexivity.
  - rewrite Hn. cbn [bind].
    destruct (xnum_ltb (xnum_of_float F.one) n) eqn:Ehi.
    + rewrite (xnum_ltb_asym _ _ Ehi). cbn [as_number bind].
      exists (PFloat F.one), (PFloat F.one). repeat split; reflexivity.
    + destruct (xnum_ltb n (xnum_of_float F.one)) eqn:Ebelow.
      * rewrite Hn. cbn [bind].
        destruct (xnum_ltb (xnum_of_float F.zero) n) eqn:Eabove.
        -- exists sc, sc. repeat split.
           rewrite (key_eqb_number _ _ _ _ Hn Hn). now apply xnum_eqb_refl.
        -- exists sc, (PFloat F.zero). repeat split.
           rewrite (key_eqb_number sc (PFloat F.zero) n (xnum_of_float F.zero) Hn eq_refl).
           now apply xnum_trichotomy.
      * cbn [as_number bind].
        exists sc, (PFloat F.one). repeat split.
        rewrite (key_eqb_number sc (PFloat F.one) n (xnum_of_float F.one) Hn eq_refl).
        now apply xnum_trichotomy.
Qed.

(** The clamp answers only on numbers. *)
Lemma clamp_is_number (sc v : pyval) :
  clamp sc = Ok v -> exists n, as_number sc = Some n.
Proof.
  unfold clamp, py_max, float_gt.
  destruct (as_number sc) as [n|]; [now exists n | discriminate].
Qed.

(** Away from NaN the clamp of the code answers, and with a value that
    passes [0.0 <= v <= 1.0]. *)
Lemma clamp_in_unit_interval (sc : pyval) (n : xnum) :
  as_number sc = Some n -> n <> XNaN ->
  exists v, clamp sc = Ok v /\ in_unit_interval v = true.
Proof.
  intros Hn Hnan. unfold clamp, py_max, float_gt. rewrite Hn. cbn [bind].
  destruct (xnum_ltb n (xnum_of_float F.zero)) eqn:Elo.
  - exists (PFloat F.zero). split; reflexivity.
  - unfold py_min, float_lt. rewrite Hn. cbn [bind].
    destruct (xnum_ltb (xnum_of_float F.one) n) eqn:Ehi.
    + exists (PFloat F.one). split; reflexivity.
    + exists sc. split; [reflexivity|].
      unfold in_unit_interval. rewrite Hn.
      assert (H0 : xnum_of_float F.zero <> XNaN) by discriminate.
      assert (H1 : xnum_of_float F.one <> XNaN) by discriminate.
      rewrite (xnum_ltb_false_leb _ _ Hnan H0 Elo).
      now rewrite (xnum_ltb_false_leb _ _ H1 Hnan Ehi).
Qed.

(** *** Slices of strings *)

Lemma substring_0_length (s : string) :
  forall n, String.length (substring 0 n s) = Nat.min n (String.length s).
Proof.
  induction s as [|c s IH]; intros [|n]; cbn; try reflexivity.
  now rewrite IH.
Qed.

Lemma substring_0_all (s : string) :
  forall n, (String.length s <= n)%nat -> substring 0 n s = s.
Proof.
  induction s as [|c s IH]; intros [|n] H; cbn in *; try reflexivity; try lia.
  f_equal. apply IH. lia.
Qed.

Lemma slice_stop_500 (len : nat) : slice_stop len 500 = Nat.min 500 len.
Proof. unfold slice_stop. now rewrite Z2Nat.inj_pos. Qed.

(** What an item built without raising is made of. *)
Lemma make_item_inv (w : world) (i : nat) (r : pyval) (it : item) :
  make_item w i r = Ok it ->
  cognee_id it = result_id i /\
  py_slice_to (fst (fst (extract w i r))) 500 = Ok (snippet it) /\
  clamp (snd (fst (extract w i r))) = Ok (score it) /\
  metadata it = snd (extract w i r).
Proof.
  unfold make_item. destruct (extract w i r) as [[snip sc] md]. cbn [fst snd].
  destruct (py_slice_to snip 500) as [snip'|e]; cbn [bind]; [|discriminate].
  destruct (clamp sc) as [sc'|e]; cbn [bind]; [|discriminate].
  intros H. injection H as <-. now cbn.
Qed.

(** *** The graph loop *)

Lemma set_add_nonempty (v : pyval) (s s' : list pyval) :
  set_add v s = Ok s' -> s' <> [].
Proof.
  unfold set_add. destruct (hashable v); [|discriminate].
  intros H. injection H as <-.
  destruct (existsb (key_eqb v) s) eqn:E.
  - destruct s; [discriminate|discriminate].
  - destruct s; discriminate.
Qed.

Lemma graph_step_quiet (w : world) (seen : list pyval) (es : list edge) (r : pyval) :
  collects_nothing r = true -> graph_step w seen es r = (Ok seen, es).
Proof.
  unfold collects_nothing, yields_node, yields_edge, hasattr, graph_step, dict_in.
  intros H. apply negb_true_iff, orb_false_iff in H. destruct H as [Hn He].
  apply orb_false_iff in Hn. destruct Hn as [Ha Hd].
  destruct (attr r "name"); [discriminate|].
  destruct r; try reflexivity.
  destruct (assoc "name" d); [discriminate|].
  destruct (assoc "source" d), (assoc "target" d); try reflexivity; discriminate.
Qed.

Lemma graph_step_loud (w : world) (seen seen' : list pyval) (es es' : list edge) (r : pyval) :
  collects_nothing r = false ->
  graph_step w seen es r = (Ok seen', es') ->
  seen' <> [] \/ es' <> [].
Proof.
  unfold collects_nothing, yields_node, yields_edge, hasattr, graph_step, dict_in.
  intros H. apply negb_false_iff in H.
  destruct (attr r "name") as [name|].
  - destruct (set_add (PStr (py_str w name)) seen) as [s1|e] eqn:Es; [|discriminate].
    intros E. injection E as <- _. left. exact (set_add_nonempty _ _ _ Es).
  - destruct r; try discriminate. cbn [orb] in H.
    destruct (assoc "name" d) as [name|].
    + destruct (set_add name seen) as [s1|e] eqn:Es; [|discriminate].
      intros E. injection E as <- _. left. exact (set_add_nonempty _ _ _ Es).
    + destruct (assoc "source" d), (assoc "target" d); try discriminate.
      intros E. injection E as _ <-. right. now destruct es.
Qed.

Lemma graph_step_grows (w : world) (seen seen' : list pyval) (es es' : list edge) (r : pyval) :
  graph_step w seen es r = (Ok seen', es') ->
  (seen <> [] -> seen' <> []) /\ (es <> [] -> es' <> []).
Proof.
  destruct (collects_nothing r) eqn:Q.
  - rewrite (graph_step_quiet _ _ _ _ Q). intros E. now injection E as <- <-.
  - unfold graph_step.
    destruct (attr r "name") as [name|].
    + destruct (set_add (PStr (py_str w name)) seen) as [s1|e] eqn:Es; [|discriminate].
      intros E. injection E as <- <-. split; [|tauto].
      intros _. exact (set_add_nonempty _ _ _ Es).
    + destruct r; try (intros E; injection E as <- <-; tauto).
      destruct (assoc "name" d) as [name|].
      * destruct (set_add name seen) as [s1|e] eqn:Es; [|discriminate].
        intros E. injection E as <- <-. split.
        -- intros _. exact (set_add_nonempty _ _ _ Es).
        -- destruct (assoc "source" d), (assoc "target" d); try tauto.
           intros _. now destruct es.
      * intros E. injection E as <- <-. split; [tauto|].
        destruct (assoc "source" d), (assoc "target" d); try tauto.
        intros _. now destruct es.
Qed.

(** A loop that ends normally leaves both collections empty exactly when it
    started with both empty and no record contributed. *)
Lemma graph_loop_empty (w : world) (rs : list pyval) :
  forall seen es seen' es',
    graph_loop w rs seen es = (Ok seen', es') ->
    (seen' = [] /\ es' = [] <->
     seen = [] /\ es = [] /\ forallb collects_nothing rs = true).
Proof.
  induction rs as [|r rs IH]; intros seen es seen' es' H.
  - cbn in H. injection H as <- <-. cbn. tauto.
  - cbn [graph_loop] in H.
    destruct (graph_step w seen es r) as [[s1|e] e1] eqn:Est; [|discriminate].
    specialize (IH _ _ _ _ H). cbn [forallb]. rewrite IH.
    destruct (collects_nothing r) eqn:Q.
    + rewrite (graph_step_quiet _ _ _ _ Q) in Est. injection Est as <- <-.
      cbn [andb]. tauto.
    + cbn [andb]. pose proof (graph_step_loud _ _ _ _ _ _ Q Est) as Hl.
      split; [intros [-> [-> _]]; destruct Hl; congruence | intros [_ [_ F]]; discriminate].
Qed.

(** Every item of a response comes from the record at its position. *)
Lemma search_item_origin
      (w : world) (self self' : CogneeClient) (query : string) (top_k : Z)
      (R : list pyval) (resp : response) (i : nat) (it : item) :
  cognee_search w INSIGHTS query = Ok (PList R) ->
  search w self query top_k = Ok (self', resp) ->
  nth_error (items resp) i = Some it ->
  exists r, nth_error R i = Some r /\ make_item w i r = Ok it.
Proof.
  intros HR Hs Hi. apply search_inv in Hs. destruct Hs as [_ [Hits _]].
  rewrite search_locals_items, (primary_phase_list _ _ _ _ HR) in Hits.
  rewrite Hits in Hi. apply process_results_nth in Hi.
  destruct Hi as [r [Hr Hm]]. exists r. split; [|exact Hm].
  rewrite nth_error_firstn in Hr.
  destruct (Nat.ltb i (slice_stop (List.length R) top_k)); [exact Hr|discriminate].
Qed.

(** When the first [n] records each build an item, the loop appends at
    least [n] items. *)
Lemma process_results_prefix (w : world) (rs : list pyval) :
  forall i0 n,
    (n <= List.length rs)%nat ->
    (forall j r, (j < n)%nat -> nth_error rs j = Some r ->
                 exists it, make_item w (i0 + j) r = Ok it) ->
    (n <= List.length (fst (process_results w i0 rs [])))%nat.
Proof.
  induction rs as [|r rs IH]; intros i0 n Hn Hok.
  - cbn in *. lia.
  - destruct n as [|n]; [lia|].
    destruct (Hok 0%nat r ltac:(lia) eq_refl) as [it Hit].
    rewrite Nat.add_0_r in Hit.
    rewrite (process_results_cons_ok _ _ _ _ _ Hit). cbn [fst List.length].
    apply le_n_S. apply IH; [cbn in Hn; lia|].
    intros j r' Hj Hr'.
    destruct (Hok (S j) r' ltac:(lia) Hr') as [it' Hit'].
    exists it'. now replace (S i0 + j)%nat with (i0 + S j)%nat by lia.
Qed.

(** The record at position [i] of the slice has its item in the response
    as soon as it and the records before it each build one. *)
Lemma search_item_produced
      (w : world) (self self' : CogneeClient) (query : string) (top_k : Z)
      (R : list pyval) (resp : response) (i : nat) :
  cognee_search w INSIGHTS query = Ok (PList R) ->
  search w self query top_k = Ok (self', resp) ->
  (i < slice_stop (List.length R) top_k)%nat ->
  (forall j r, (j <= i)%nat -> nth_error R j = Some r ->
               exists it, make_item w j r = Ok it) ->
  exists it, nth_error (items resp) i = Some it.
Proof.
  intros HR Hs Hi Hok. apply search_inv in Hs. destruct Hs as [_ [Hits _]].
  rewrite search_locals_items, (primary_phase_list _ _ _ _ HR) in Hits.
  pose proof (slice_stop_le (List.length R) top_k) as Hle.
  assert (Hlen : (S i <= List.length (items resp))%nat).
  { rewrite Hits. apply process_results_prefix.
    - rewrite length_firstn. lia.
    - intros j r Hj Hr. rewrite nth_error_firstn in Hr.
      destruct (Nat.ltb j (slice_stop (List.length R) top_k)); [|discriminate].
      apply (Hok j r); [lia | exact Hr]. }
  destruct (nth_error (items resp) i) as [it|] eqn:E; [now exists it|].
  apply nth_error_None in E. lia.
Qed.

Lemma set_add_spec (v : pyval) (s s' : list pyval) :
  set_add v s = Ok s' ->
  (s' = s /\ existsb (key_eqb v) s = true) \/
  (s' = s ++ [v] /\ existsb (key_eqb v) s = false).
Proof.
  unfold set_add. destruct (hashable v); [|discriminate].
  intros H. injection H as <-.
  destruct (existsb (key_eqb v) s); [left | right]; now split.
Qed.

(** What one iteration does to the two collections, and when it raises. *)
Lemma graph_step_spec (w : world) (seen : list pyval) (es : list edge) (r : pyval) :
  match graph_step w seen es r with
  | (Ok seen', es') =>
      es' = es ++ edge_of r /\
      (seen' = seen \/ exists v, set_add v seen = Ok seen') /\
      name_hashable r = true
  | (Raise _, es') => es' = es /\ name_hashable r = false
  end.
Proof.
  unfold graph_step, edge_of, name_hashable.
  destruct (attr r "name") as [name|].
  - assert (Hs : exists s1, set_add (PStr (py_str w name)) seen = Ok s1)
      by (unfold set_add; cbn [hashable]; eauto).
    destruct Hs as [s1 Hs]. rewrite Hs.
    split; [now rewrite app_nil_r | split; [right; eauto | reflexivity]].
  - destruct r; try (split; [now rewrite app_nil_r | split; [now left | reflexivity]]).
    destruct (assoc "name" d) as [name|].
    + unfold set_add. destruct (hashable name) eqn:Eh.
      * split; [|split; [right; exists name; unfold set_add; now rewrite Eh | reflexivity]].
        destruct (assoc "source" d), (assoc "target" d);
          try reflexivity; now rewrite app_nil_r.
      * now split.
    + split; [|split; [now left | reflexivity]].
      destruct (assoc "source" d), (assoc "target" d);
        try reflexivity; now rewrite app_nil_r.
Qed.

Lemma edge_of_length (r : pyval) : (List.length (edge_of r) <= 1)%nat.
Proof.
  unfold edge_of. destruct (attr r "name"); [cbn; lia|].
  destruct r; try (cbn; lia).
  destruct (assoc "source" d), (assoc "target" d); cbn; lia.
Qed.

Lemma flat_map_edge_of_length (rs : list pyval) :
  (List.length (flat_map edge_of rs) <= List.length rs)%nat.
Proof.
  induction rs as [|r rs IH]; [cbn; lia|].
  cbn [flat_map List.length]. rewrite length_app.
  pose proof (edge_of_length r). lia.
Qed.

Lemma key_distinct_add (v : pyval) (s s' : list pyval) :
  key_distinct s -> set_add v s = Ok s' -> key_distinct s'.
Proof.
  intros Hs Ha. destruct (set_add_spec _ _ _ Ha) as [[-> _] | [-> Hex]]; [exact Hs|].
  intros i j a b Hij Hi Hj.
  destruct (Nat.lt_ge_cases j (List.length s)) as [Hjs|Hjs].
  - rewrite nth_error_app1 in Hi by lia. rewrite nth_error_app1 in Hj by lia.
    exact (Hs _ _ _ _ Hij Hi Hj).
  - rewrite nth_error_app2 in Hj by lia.
    destruct (j - List.length s)%nat as [|n] eqn:En.
    + cbn in Hj. injection Hj as <-.
      rewrite nth_error_app1 in Hi by lia.
      apply nth_error_In in Hi.
      destruct (key_eqb v a) eqn:E; [|reflexivity].
      assert (Ht : existsb (key_eqb v) s = true)
        by (apply existsb_exists; now exists a).
      congruence.
    + cbn in Hj. now destruct n.
Qed.

(** The graph loop in one statement: the edges are those of the records it
    went through, in their order; the names stay pairwise distinct and are
    at most one per record; the loop is cut short at the first record whose
    name cannot be hashed. *)
Lemma graph_loop_spec (w : world) (rs : list pyval) :
  forall seen es,
    key_distinct seen ->
    match graph_loop w rs seen es with
    | (Ok seen', es') =>
        es' = es ++ flat_map edge_of rs /\
        key_distinct seen' /\
        (List.length seen' <= List.length seen + List.length rs)%nat /\
        forallb name_hashable rs = true
    | (Raise _, es') =>
        exists pre r post,
          rs = pre ++ r :: post /\ es' = es ++ flat_map edge_of pre /\
          forallb name_hashable pre = true /\ name_hashable r = false
    end.
Proof.
  induction rs as [|r rs IH]; intros seen es Hd.
  - cbn. repeat split; [now rewrite app_nil_r | exact Hd | lia].
  - cbn [graph_loop]. pose proof (graph_step_spec w seen es r) as Hst.
    destruct (graph_step w seen es r) as [[s1|e] e1].
    + destruct Hst as [-> [Hseen Hh]].
      assert (Hd1 : key_distinct s1).
      { destruct Hseen as [-> | [v Hv]]; [exact Hd | exact (key_distinct_add _ _ _ Hd Hv)]. }
      assert (Hl1 : (List.length s1 <= S (List.length seen))%nat).
      { destruct Hseen as [-> | [v Hv]]; [lia|].
        destruct (set_add_spec _ _ _ Hv) as [[-> _] | [-> _]];
          [lia | rewrite length_app; cbn; lia]. }
      specialize (IH s1 (es ++ edge_of r) Hd1).
      destruct (graph_loop w rs s1 (es ++ edge_of r)) as [[s2|e2] e3].
      * destruct IH as [-> [Hd2 [Hl2 Hall]]]. cbn [flat_map List.length forallb].
        rewrite Hh, Hall.
        repeat split; [now rewrite app_assoc | exact Hd2 | lia].
      * destruct IH as [pre [r' [post [-> [-> [Hpre Hr']]]]]].
        exists (r :: pre), r', post. split; [reflexivity|].
        cbn [flat_map forallb]. rewrite Hh, Hpre.
        repeat split; [now rewrite app_assoc | exact Hr'].
    + destruct Hst as [-> Hh]. exists [], r, rs. split; [reflexivity|].
      cbn. rewrite app_nil_r. now repeat split.
Qed.

Lemma key_distinct_nil : key_distinct [].
Proof. intros i j a b _ Hi. destruct i; discriminate. Qed.

Lemma graph_phase_list (w : world) (query : string) (top_k : Z) (G : list pyval) :
  cognee_search w GRAPH_COMPLETION query = Ok (PList G) ->
  graph_phase w query top_k =
  match graph_loop w (firstn (slice_stop (List.length G) top_k) G) [] [] with
  | (Ok seen, es) => {| nodes := seen; edges := es |}
  | (Raise _, es) => {| nodes := []; edges := es |}
  end.
Proof.
  intros H. unfold graph_phase. rewrite H.
  destruct G as [|g G]; [|reflexivity].
  cbn [truthy List.length]. now rewrite firstn_nil.
Qed.

(** The graph of any run comes from a graph loop over some records, or is
    empty. *)
Lemma graph_phase_form (w : world) (query : string) (top_k : Z) :
  graph_phase w query top_k = empty_graph \/
  exists rs,
    graph_phase w query top_k =
    match graph_loop w rs [] [] with
    | (Ok seen, es) => {| nodes := seen; edges := es |}
    | (Raise _, es) => {| nodes := []; edges := es |}
    end.
Proof.
  unfold graph_phase.
  destruct (cognee_search w GRAPH_COMPLETION query) as [v|e]; [|now left].
  destruct (truthy v); [|now left].
  destruct (py_slice_to v top_k) as [sl|e]; [|now left].
  right. now exists (py_iter sl).
Qed.

Lemma returned_graph_is_phase
      (w : world) (self self' : CogneeClient) (query : string) (top_k : Z)
      (resp : response) (g : graph) :
  search w self query top_k = Ok (self', resp) ->
  graph_context resp = Some g ->
  g = graph_phase w query top_k.
Proof.
  intros Hs Hg. apply search_inv in Hs. destruct Hs as [_ [_ Hgc]].
  rewrite Hgc in Hg. unfold search_locals in Hg.
  destruct (primary_phase w query top_k) as [its [e|]]; cbn [snd] in Hg.
  - discriminate.
  - unfold graph_or_none in Hg.
    destruct (nodes (graph_phase w query top_k)), (edges (graph_phase w query top_k));
      try discriminate; now injection Hg as <-.
Qed.

Lemma slice_stop_all (len : nat) (k : Z) :
  Z.of_nat len <= k -> slice_stop len k = len.
Proof. intros H. unfold slice_stop. destruct (k <? 0) eqn:E; [apply Z.ltb_lt in E|]; lia. Qed.

(** A request for at least as many records as the backend returned goes
    through all of them. *)
Lemma search_items_of_list
      (w : world) (self self' : CogneeClient) (query : string) (top_k : Z)
      (R : list pyval) :
  initialize w self = Ok self' ->
  cognee_search w INSIGHTS query = Ok (PList R) ->
  Z.of_nat (List.length R) <= top_k ->
  exists g,
    search w self query top_k
    = Ok (self', {| items := fst (process_results w 0 R []); graph_context := g |}).
Proof.
  intros Hi HR Hk. rewrite (search_unfold _ _ _ _ _ Hi). eexists.
  rewrite search_locals_items, (primary_phase_list _ _ _ _ HR).
  rewrite (slice_stop_all _ _ Hk), firstn_all. reflexivity.
Qed.

Lemma nth_error_slice {A : Type} (n i : nat) (l : list A) :
  (i < n)%nat -> nth_error (firstn n l) i = nth_error l i.
Proof.
  intros H. rewrite nth_error_firstn.
  destruct (Nat.ltb_spec i n); [reflexivity | lia].
Qed.

Lemma forallb_nth {A : Type} (f : A -> bool) (l : list A) (i : nat) (x : A) :
  forallb f l = true -> nth_error l i = Some x -> f x = true.
Proof.
  intros Hall Hi. apply nth_error_In in Hi.
  rewrite forallb_forall in Hall. now apply Hall.
Qed.

(** ** The claims *)

(** C1. When the primary backend query raises, [search] answers with an empty
    item list and no graph; nothing propagates. *)
Theorem search_primary_failure
        (w : world) (self self' : CogneeClient) (query : string) (top_k : Z) (e : exn) :
  initialize w self = Ok self' ->
  cognee_search w INSIGHTS query = Raise e ->
  search w self query top_k = Ok (self', {| items := []; graph_context := None |}).
Proof.
  intros Hinit Hfail. rewrite (search_unfold _ _ _ _ _ Hinit).
  unfold search_locals, primary_phase. now rewrite Hfail.
Qed.

Lemma search_primary_failure_witness :
  search (sample_world None (Raise backend_down) (Ok (PList []))) fresh_client "q" 5
  = Ok (ready_client, {| items := []; graph_context := None |}).
Proof.
  apply (search_primary_failure _ fresh_client ready_client "q" 5 backend_down);
    reflexivity.
Defined.

(** C2.  The clamp of the code lets a NaN score through: [max(nan, 0.0)] and
    [min(nan, 1.0)] both keep their first argument, so the item carries NaN,
    which fails [0.0 <= score <= 1.0]; the formula of the specification gives
    [1.0] there.  That is the only way out of the interval: on every other
    number the clamp of the code and the formula of the specification give
    equal numbers in the interval, and the score of an item passes
    [0.0 <= score <= 1.0] unless the upstream score is NaN.  The two scores
    the claim names are clamped as it says. *)
Theorem nan_score_not_clamped :
  search (sample_world None (Ok (PList [text_record "x" (PFloat F.nan)])) (Ok (PList [])))
         fresh_client "q" 5
  = Ok (ready_client,
        {| items := [text_item 0 "x" (PFloat F.nan)]; graph_context := None |})
  /\ in_unit_interval (PFloat F.nan) = false
  /\ clamp_as_specified (PFloat F.nan) = Ok (PFloat F.one)
  /\ clamp (PFloat (F.lit 57 10)) = Ok (PFloat F.one)
  /\ clamp (PFloat (F.of_Z (-2))) = Ok (PFloat F.zero)
  /\ (forall sc n, as_number sc = Some n -> n <> XNaN ->
                   exists v v', clamp sc = Ok v /\ clamp_as_specified sc = Ok v' /\
                                key_eqb v v' = true /\ in_unit_interval v = true)
  /\ forall w self self' query top_k R resp i it,
       cognee_search w INSIGHTS query = Ok (PList R) ->
       search w self query top_k = Ok (self', resp) ->
       nth_error (items resp) i = Some it ->
       in_unit_interval (score it) = true \/
       exists r, nth_error R i = Some r /\
                 as_number (snd (fst (extract w i r))) = Some XNaN.
Proof.
  repeat (split; [reflexivity|]). split.
  { intros sc n Hn Hnan.
    destruct (clamp_agrees_with_specification _ _ Hn Hnan) as [v [v' [Hv [Hv' Heq]]]].
    destruct (clamp_in_unit_interval _ _ Hn Hnan) as [v0 [Hv0 Hin]].
    rewrite Hv in Hv0. injection Hv0 as <-.
    exists v, v'. now repeat split. }
  intros w self self' query top_k R resp i it HR Hs Hi.
  destruct (search_item_origin _ _ _ _ _ _ _ _ _ HR Hs Hi) as [r [Hr Hm]].
  apply make_item_inv in Hm. destruct Hm as [_ [_ [Hc _]]].
  destruct (clamp_is_number _ _ Hc) as [n Hn].
  destruct n as [|neg|m e].
  - right. exists r. now split.
  - left. destruct (clamp_in_unit_interval _ _ Hn ltac:(discriminate)) as [v [Hv Hin]].
    rewrite Hc in Hv. now injection Hv as <-.
  - left. destruct (clamp_in_unit_interval _ _ Hn ltac:(discriminate)) as [v [Hv Hin]].
    rewrite Hc in Hv. now injection Hv as <-.
Qed.

(** C3.  For every top_k that is not negative, so for each of the 1 to 50 a
    request can carry, the response holds at most [min(len(R), top_k)]
    items, and the item at position [i] is the one built from the record at
    position [i], with [i < top_k]. *)
Theorem items_bounded_by_top_k
        (w : world) (self self' : CogneeClient) (query : string) (top_k : Z)
        (R : list pyval) (resp : response) :
  0 <= top_k ->
  cognee_search w INSIGHTS query = Ok (PList R) ->
  search w self query top_k = Ok (self', resp) ->
  Z.of_nat (List.length (items resp)) <= Z.min (Z.of_nat (List.length R)) top_k /\
  forall i it, nth_error (items resp) i = Some it ->
               Z.of_nat i < top_k /\
               exists r, nth_error R i = Some r /\ make_item w i r = Ok it.
Proof.
  intros Hk HR Hs. apply search_inv in Hs. destruct Hs as [_ [Hits _]].
  rewrite search_locals_items, (primary_phase_list _ _ _ _ HR) in Hits.
  set (n := slice_stop (List.length R) top_k) in *.
  assert (Hlen : (List.length (items resp) <= n)%nat).
  { rewrite Hits.
    etransitivity; [apply process_results_length|]. rewrite length_firstn. lia. }
  pose proof (slice_stop_le (List.length R) top_k) as Hn1.
  pose proof (slice_stop_nonneg (List.length R) top_k Hk) as Hn2.
  fold n in Hn1, Hn2. split; [lia|].
  intros i it Hi.
  assert (Hlt : (i < List.length (items resp))%nat).
  { apply nth_error_Some. now rewrite Hi. }
  split; [lia|].
  rewrite Hits in Hi. apply process_results_nth in Hi.
  destruct Hi as [r [Hr Hm]]. exists r. split; [|exact Hm].
  rewrite nth_error_firstn in Hr. destruct (Nat.ltb i n); [exact Hr|discriminate].
Qed.

Lemma items_bounded_by_top_k_witness :
  Z.of_nat (List.length [text_item 0 "a" nine_tenths; text_item 1 "b" nine_tenths])
  <= Z.min (Z.of_nat (List.length three_records)) 2.
Proof.
  exact (proj1 (items_bounded_by_top_k
                  (sample_world None (Ok (PList three_records)) (Ok (PList [])))
                  fresh_client ready_client "q" 2 three_records
                  {| items := [text_item 0 "a" nine_tenths; text_item 1 "b" nine_tenths];
                     graph_context := None |}
                  ltac:(lia) eq_refl eq_refl)).
Defined.

(** Below the range a request can carry, [R[:top_k]] counts from the end:
    with [top_k = -1] the slice drops the last record only, so three records
    give two items. *)
Lemma negative_top_k_drops_last :
  search (sample_world None (Ok (PList three_records)) (Ok (PList [])))
         fresh_client "q" (-1)
  = Ok (ready_client,
        {| items := [text_item 0 "a" nine_tenths; text_item 1 "b" nine_tenths];
           graph_context := None |})
  /\ Z.min (Z.of_nat (List.length three_records)) (-1)
     < Z.of_nat (List.length [text_item 0 "a" nine_tenths; text_item 1 "b" nine_tenths]).
Proof. split; [reflexivity | cbn; lia]. Qed.

(** C4.  In a search response, the item at position [i] that comes from a
    mapping record is built from these values: as snippet the value of
    [text], else of [content], else the string form of the record; as score
    the value of [score], else [1.0 - (i * 0.1)] for that position [i]; as
    metadata the value of [metadata], else an empty mapping.  The item is
    there as soon as the record is in the slice and it and the records
    before it each build an item.  At index 2 the fallback is [0.8]: a third
    record with neither [score] nor [text] gets it. *)
Theorem mapping_extraction :
  (forall w self self' query top_k R resp i d,
      cognee_search w INSIGHTS query = Ok (PList R) ->
      search w self query top_k = Ok (self', resp) ->
      nth_error R i = Some (PDict d) ->
      (forall it, nth_error (items resp) i = Some it ->
         py_slice_to (match assoc "text" d with
                      | Some t => t
                      | None => match assoc "content" d with
                                | Some c => c
                                | None => PStr (py_str w (PDict d))
                                end
                      end) 500 = Ok (snippet it) /\
         clamp (match assoc "score" d with
                | Some sc => sc
                | None => PFloat (F.sub F.one (F.mul (F.of_nat i) (F.lit 1 10)))
                end) = Ok (score it) /\
         metadata it = match assoc "metadata" d with
                       | Some md => md
                       | None => PDict []
                       end) /\
      ((i < slice_stop (List.length R) top_k)%nat ->
       (forall j r, (j <= i)%nat -> nth_error R j = Some r ->
                    exists itj, make_item w j r = Ok itj) ->
       exists it, nth_error (items resp) i = Some it))
  /\ F.sub F.one (F.mul (F.of_nat 2) (F.lit 1 10)) = F.lit 8 10
  /\ (forall w self self' query top_k,
         initialize w self = Ok self' ->
         3 <= top_k ->
         cognee_search w INSIGHTS query
         = Ok (PList [text_record "a" nine_tenths; text_record "b" nine_tenths;
                      content_only_record]) ->
         exists g,
           search w self query top_k
           = Ok (self',
                 {| items := [text_item 0 "a" nine_tenths; text_item 1 "b" nine_tenths;
                              {| cognee_id := "result_2"; snippet := PStr "c";
                                 score := PFloat (F.lit 8 10); metadata := PDict [] |}];
                    graph_context := g |})).
Proof.
  split; [|split; [reflexivity|]].
  - intros w self self' query top_k R resp i d HR Hs Hd. split.
    + intros it Hi.
      destruct (search_item_origin _ _ _ _ _ _ _ _ _ HR Hs Hi) as [r [Hr Hm]].
      rewrite Hd in Hr. injection Hr as <-.
      apply make_item_inv in Hm. destruct Hm as [_ [Hsl [Hc Hmd]]].
      unfold extract, dict_get, fallback_score in Hsl, Hc, Hmd.
      cbn [fst snd] in Hsl, Hc, Hmd.
      repeat split; assumption.
    + intros Hin Hok. exact (search_item_produced _ _ _ _ _ _ _ _ HR Hs Hin Hok).
  - intros w self self' query top_k Hi Hk HR.
    exact (search_items_of_list _ _ _ _ _ _ Hi HR Hk).
Qed.

Lemma mapping_extraction_witness :
  py_slice_to (PStr "c") 500 = Ok (PStr "c") /\
  clamp (PFloat (F.sub F.one (F.mul (F.of_nat 2) (F.lit 1 10)))) = Ok (PFloat (F.lit 8 10)) /\
  PDict [] = PDict [].
Proof.
  exact (proj1 (proj1 mapping_extraction
                  (sample_world None
                     (Ok (PList [text_record "a" nine_tenths; text_record "b" nine_tenths;
                                 content_only_record]))
                     (Ok (PList [])))
                  fresh_client ready_client "q"%string 5
                  [text_record "a" nine_tenths; text_record "b" nine_tenths;
                   content_only_record]
                  {| items := [text_item 0 "a" nine_tenths; text_item 1 "b" nine_tenths;
                               {| cognee_id := "result_2"; snippet := PStr "c";
                                  score := PFloat (F.lit 8 10); metadata := PDict [] |}];
                     graph_context := None |}
                  2%nat [("content"%string, PStr "c")]
                  eq_refl eq_refl eq_refl)
               {| cognee_id := "result_2"; snippet := PStr "c";
                  score := PFloat (F.lit 8 10); metadata := PDict [] |}
               eq_refl).
Defined.

(** C5.  The snippet of every item of a search response is the extracted
    value cut by [[:500]]: for an extracted string, its first 500
    characters, and the whole string when it has at most 500.  The item is
    there as soon as the record is in the slice and it and the records
    before it each build an item.  For the record [{"text": "A"*600,
    "score": 0.9}], [search] returns the item whose snippet has exactly 500
    characters and whose score is [0.9]. *)
Theorem snippet_is_first_500 :
  (forall w self self' query top_k R resp i it,
      cognee_search w INSIGHTS query = Ok (PList R) ->
      search w self query top_k = Ok (self', resp) ->
      nth_error (items resp) i = Some it ->
      exists r, nth_error R i = Some r /\
        py_slice_to (fst (fst (extract w i r))) 500 = Ok (snippet it) /\
        forall s, fst (fst (extract w i r)) = PStr s ->
          snippet it = PStr (substring 0 500 s) /\
          String.length (substring 0 500 s) = Nat.min 500 (String.length s) /\
          ((String.length s <= 500)%nat -> snippet it = PStr s))
  /\ (forall w self self' query top_k R resp i,
         cognee_search w INSIGHTS query = Ok (PList R) ->
         search w self query top_k = Ok (self', resp) ->
         (i < slice_stop (List.length R) top_k)%nat ->
         (forall j r, (j <= i)%nat -> nth_error R j = Some r ->
                      exists itj, make_item w j r = Ok itj) ->
         exists it, nth_error (items resp) i = Some it)
  /\ (forall w self self' query top_k,
         initialize w self = Ok self' ->
         1 <= top_k ->
         cognee_search w INSIGHTS query = Ok (PList [long_text_record]) ->
         exists g,
           search w self query top_k
           = Ok (self',
                 {| items := [text_item 0 (repeat_char "A" 500) nine_tenths];
                    graph_context := g |}))
  /\ (forall w, make_item w 0 long_text_record
                = Ok (text_item 0 (repeat_char "A" 500) nine_tenths))
  /\ String.length (repeat_char "A" 500) = 500%nat
  /\ nine_tenths = PFloat (S754_finite false 8106479329266893 (-53)).
Proof.
  split; [|split; [|split; [|repeat split; reflexivity]]].
  - intros w self self' query top_k R resp i it HR Hs Hi.
    destruct (search_item_origin _ _ _ _ _ _ _ _ _ HR Hs Hi) as [r [Hr Hm]].
    exists r. split; [exact Hr|].
    apply make_item_inv in Hm. destruct Hm as [_ [Hsl _]].
    split; [exact Hsl|].
    intros s Hsn. rewrite Hsn in Hsl. cbn [py_slice_to] in Hsl.
    injection Hsl as Hsl. rewrite slice_stop_500 in Hsl.
    assert (Hcut : substring 0 (Nat.min 500 (String.length s)) s = substring 0 500 s).
    { destruct (Nat.le_ge_cases 500 (String.length s)) as [Hl|Hl].
      - now rewrite Nat.min_l by exact Hl.
      - rewrite Nat.min_r by exact Hl.
        now rewrite !substring_0_all by lia. }
    rewrite Hcut in Hsl. split; [now rewrite <- Hsl|].
    split; [apply substring_0_length|].
    intros Hshort. rewrite <- Hsl. now rewrite substring_0_all.
  - intros w self self' query top_k R resp i HR Hs Hin Hok.
    exact (search_item_produced _ _ _ _ _ _ _ _ HR Hs Hin Hok).
  - intros w self self' query top_k Hi Hk HR.
    exact (search_items_of_list _ _ _ _ _ _ Hi HR Hk).
Qed.

Lemma snippet_is_first_500_witness :
  exists g,
    search (sample_world None (Ok (PList [long_text_record])) (Ok (PList [])))
           fresh_client "q" 5
    = Ok (ready_client,
          {| items := [text_item 0 (repeat_char "A" 500) nine_tenths];
             graph_context := g |}).
Proof.
  exact (proj1 (proj2 (proj2 snippet_is_first_500))
               (sample_world None (Ok (PList [long_text_record])) (Ok (PList [])))
               fresh_client ready_client "q"%string 5
               eq_refl ltac:(lia) eq_refl).
Defined.

(** C6, as amended.  The graph of the response is null exactly when the
    node list and the edge list of [graph_context] are both empty at the
    [return], so a graph that is returned is never empty.  When the graph
    loop ran to its end, the graph returned is what the loop collected, and
    it is null exactly when no record of the slice contributed a node or an
    edge. *)
Theorem graph_null_iff_nothing_collected
        (w : world) (self self' : CogneeClient) (query : string) (top_k : Z)
        (resp : response) :
  search w self query top_k = Ok (self', resp) ->
  (graph_context resp = None <->
   nodes (snd (search_locals w query top_k)) = [] /\
   edges (snd (search_locals w query top_k)) = [])
  /\ (forall g, graph_context resp = Some g ->
                g = snd (search_locals w query top_k) /\ (nodes g <> [] \/ edges g <> []))
  /\ (forall G seen es,
         snd (primary_phase w query top_k) = None ->
         cognee_search w GRAPH_COMPLETION query = Ok (PList G) ->
         graph_loop w (firstn (slice_stop (List.length G) top_k) G) [] [] = (Ok seen, es) ->
         (graph_context resp = None <->
          forallb collects_nothing (firstn (slice_stop (List.length G) top_k) G) = true)
         /\ (forall g, graph_context resp = Some g -> nodes g = seen /\ edges g = es)).
Proof.
  intros Hs. pose proof Hs as Hs0. apply search_inv in Hs. destruct Hs as [_ [_ Hg]].
  assert (Hnull : graph_context resp = None <->
                  nodes (snd (search_locals w query top_k)) = [] /\
                  edges (snd (search_locals w query top_k)) = []).
  { rewrite Hg. unfold graph_or_none.
    destruct (nodes (snd (search_locals w query top_k))),
      (edges (snd (search_locals w query top_k)));
      split; try discriminate; try tauto; intros [? ?]; discriminate. }
  split; [exact Hnull|]. split.
  - intros g Hsome. rewrite Hg in Hsome. unfold graph_or_none in Hsome.
    destruct (nodes (snd (search_locals w query top_k))) eqn:En,
      (edges (snd (search_locals w query top_k))) eqn:Ee;
      try discriminate; injection Hsome as <-; (split; [reflexivity|]);
      rewrite ?En, ?Ee; (left; discriminate) || (right; discriminate).
  - intros G seen es Hprim HG Hloop. split.
    + rewrite Hnull. unfold search_locals.
      destruct (primary_phase w query top_k) as [its err]. cbn [snd] in Hprim. subst err.
      cbn [snd]. rewrite (graph_phase_list _ _ _ _ HG), Hloop. cbn [nodes edges].
      rewrite (graph_loop_empty _ _ _ _ _ _ Hloop). tauto.
    + intros g Hsome.
      rewrite (returned_graph_is_phase _ _ _ _ _ _ _ Hs0 Hsome).
      rewrite (graph_phase_list _ _ _ _ HG), Hloop. now split.
Qed.

Lemma graph_null_iff_nothing_collected_witness :
  {| nodes := []; edges := [xy_edge] |}
  = snd (search_locals (sample_world None (Ok (PList [])) (Ok (PList [xy_record]))) "q" 5)
  /\ (nodes {| nodes := []; edges := [xy_edge] |} <> [] \/
      edges {| nodes := []; edges := [xy_edge] |} <> []).
Proof.
  exact (proj1 (proj2 (graph_null_iff_nothing_collected
                         (sample_world None (Ok (PList [])) (Ok (PList [xy_record])))
                         fresh_client ready_client "q" 5
                         {| items := [];
                            graph_context := Some {| nodes := []; edges := [xy_edge] |} |}
                         eq_refl))
               {| nodes := []; edges := [xy_edge] |} eq_refl).
Defined.

(** C6 as stated fails when a later record cuts the graph loop short: the
    first record puts the name ["A"] in [seen_nodes], the second raises, the
    assignment to [graph_context["nodes"]] is skipped and the response has no
    graph. *)
Lemma collected_node_dropped_counterexample :
  graph_step (sample_world None (Ok (PList []))
                (Ok (PList [named_object 1 "A"; list_name_only_record])))
             [] [] (named_object 1 "A")
  = (Ok [PStr "A"], [])
  /\ search (sample_world None (Ok (PList []))
               (Ok (PList [named_object 1 "A"; list_name_only_record])))
            fresh_client "q" 5
     = Ok (ready_client, {| items := []; graph_context := None |}).
Proof. split; reflexivity. Qed.

(** C7, as amended.  When the graph loop is reached and runs to its end
    over the first top_k graph records, none of them raising (a mapping
    raises when its [name] is unhashable), every mapping among them that has
    both [source] and [target] has its edge in the returned graph, from
    [source] to [target] with the record's [relation], else ["related_to"],
    and its [weight], else [0.5].  The record [{"source": "X", "target":
    "Y"}] gives the edge the claim names. *)
Theorem edge_appended :
  (forall w self self' query top_k G resp i d src tgt,
      search w self query top_k = Ok (self', resp) ->
      snd (primary_phase w query top_k) = None ->
      cognee_search w GRAPH_COMPLETION query = Ok (PList G) ->
      (i < slice_stop (List.length G) top_k)%nat ->
      nth_error G i = Some (PDict d) ->
      assoc "source" d = Some src ->
      assoc "target" d = Some tgt ->
      (forall j r, (j < slice_stop (List.length G) top_k)%nat ->
                   nth_error G j = Some r -> name_hashable r = true) ->
      exists g,
        graph_context resp = Some g /\
        In {| e_from := src; e_to := tgt;
              relation := match assoc "relation" d with
                          | Some rel => rel
                          | None => PStr "related_to"
                          end;
              weight := match assoc "weight" d with
                        | Some wt => wt
                        | None => PFloat (F.lit 5 10)
                        end |} (edges g))
  /\ (forall w seen es d src tgt,
         assoc "source" d = Some src ->
         assoc "target" d = Some tgt ->
         (forall name, assoc "name" d = Some name -> hashable name = true) ->
         exists seen',
           graph_step w seen es (PDict d) =
           (Ok seen',
            es ++ [{| e_from := src; e_to := tgt;
                      relation := match assoc "relation" d with
                                  | Some rel => rel
                                  | None => PStr "related_to"
                                  end;
                      weight := match assoc "weight" d with
                                | Some wt => wt
                                | None => PFloat (F.lit 5 10)
                                end |}]))
  /\ (forall w self self' query top_k its,
         initialize w self = Ok self' ->
         primary_phase w query top_k = (its, None) ->
         1 <= top_k ->
         cognee_search w GRAPH_COMPLETION query = Ok (PList [xy_record]) ->
         search w self query top_k
         = Ok (self', {| items := its;
                         graph_context := Some {| nodes := []; edges := [xy_edge] |} |}))
  /\ F.lit 5 10 = S754_finite false 4503599627370496 (-53).
Proof.
  split; [|split; [|split; [|reflexivity]]].
  - intros w self self' query top_k G resp i d src tgt Hs Hprim HG Hi Hd Hsrc Htgt Hok.
    set (e := {| e_from := src; e_to := tgt;
                 relation := match assoc "relation" d with
                             | Some rel => rel
                             | None => PStr "related_to"
                             end;
                 weight := match assoc "weight" d with
                           | Some wt => wt
                           | None => PFloat (F.lit 5 10)
                           end |}).
    assert (He : edge_of (PDict d) = [e]).
    { unfold edge_of. cbn [attr]. now rewrite Hsrc, Htgt. }
    set (sl := firstn (slice_stop (List.length G) top_k) G).
    assert (Hsl : forall j, (j < slice_stop (List.length G) top_k)%nat ->
                            nth_error sl j = nth_error G j).
    { intros j Hj. now apply nth_error_slice. }
    assert (Hgc : graph_context resp = graph_or_none (graph_phase w query top_k)).
    { apply search_inv in Hs. destruct Hs as [_ [_ Hg]]. rewrite Hg.
      unfold search_locals. destruct (primary_phase w query top_k) as [its err].
      cbn [snd] in Hprim. now subst err. }
    rewrite (graph_phase_list _ _ _ _ HG) in Hgc. fold sl in Hgc.
    pose proof (graph_loop_spec w sl [] [] key_distinct_nil) as Hspec.
    assert (Hfound : forall es seen,
               In e es ->
               exists g, graph_or_none {| nodes := seen; edges := es |} = Some g /\
                         In e (edges g)).
    { intros es seen Hin. exists {| nodes := seen; edges := es |}.
      split; [|exact Hin]. unfold graph_or_none. cbn [nodes edges].
      destruct seen, es; try reflexivity. destruct Hin. }
    destruct (graph_loop w sl [] []) as [[seen|ex] es].
    + destruct Hspec as [-> _]. rewrite Hgc. apply Hfound.
      cbn [app]. apply in_flat_map. exists (PDict d). split.
      * apply (nth_error_In _ i). now rewrite Hsl.
      * rewrite He. now left.
    + destruct Hspec as [pre [r [post [Hsplit [_ [_ Hr]]]]]]. exfalso.
      assert (Hnr : nth_error sl (List.length pre) = Some r).
      { rewrite Hsplit, nth_error_app2 by lia. now rewrite Nat.sub_diag. }
      assert (Hin : (List.length pre < slice_stop (List.length G) top_k)%nat).
      { assert (Hlen : (List.length pre < List.length sl)%nat).
        { rewrite Hsplit, length_app. cbn [List.length]. lia. }
        unfold sl in Hlen. rewrite length_firstn in Hlen. lia. }
      rewrite (Hsl _ Hin) in Hnr.
      rewrite (Hok _ _ Hin Hnr) in Hr. discriminate.
  - intros w seen es d src tgt Hsrc Htgt Hname.
    unfold graph_step. cbn [attr]. rewrite Hsrc, Htgt.
    unfold make_edge, dict_get.
    destruct (assoc "name" d) as [name|].
    + unfold set_add. rewrite (Hname name eq_refl). eexists. reflexivity.
    + eexists. reflexivity.
  - intros w self self' query top_k its Hi Hprim Hk HG.
    rewrite (search_unfold _ _ _ _ _ Hi). unfold search_locals. rewrite Hprim.
    cbn [fst snd]. rewrite (graph_phase_list _ _ _ _ HG).
    rewrite slice_stop_all by (cbn; lia). reflexivity.
Qed.

Lemma edge_appended_witness :
  exists g,
    Some {| nodes := [PStr "A"]; edges := [xy_edge] |} = Some g /\
    In {| e_from := PStr "X"; e_to := PStr "Y";
          relation := PStr "related_to"; weight := PFloat (F.lit 5 10) |} (edges g).
Proof.
  refine (proj1 edge_appended
                (sample_world None (Ok (PList []))
                   (Ok (PList [named_object 1 "A"; xy_record])))
                fresh_client ready_client "q"%string 5
                [named_object 1 "A"; xy_record]
                {| items := [];
                   graph_context := Some {| nodes := [PStr "A"]; edges := [xy_edge] |} |}
                1%nat [("source"%string, PStr "X"); ("target"%string, PStr "Y")]
                (PStr "X") (PStr "Y")
                eq_refl eq_refl eq_refl _ eq_refl eq_refl eq_refl _).
  - cbn. lia.
  - intros j r Hj Hr.
    destruct j as [|[|j]]; cbn in Hr; try (injection Hr as <-; reflexivity).
    destruct j; discriminate Hr.
Defined.

(** C7 as stated fails for a mapping whose [name] is a list: adding it to
    the set raises before the edge is appended, and the response has no
    graph. *)
Lemma list_name_counterexample :
  graph_step (sample_world None (Ok (PList [])) (Ok (PList [list_name_record])))
             [] [] list_name_record
  = (Raise TypeError, [])
  /\ search (sample_world None (Ok (PList [])) (Ok (PList [list_name_record])))
            fresh_client "q" 5
     = Ok (ready_client, {| items := []; graph_context := None |}).
Proof. split; reflexivity. Qed.

(** C8.  A failure of the graph phase is never fatal and never costs the
    primary items, but it does not always give a null graph.  When the graph
    query itself raises, the response holds every primary item and no graph.
    When a graph record raises in the loop, the same handler catches it, but
    the edges appended before it are still in [graph_context]: for the graph
    records [{"source": "X", "target": "Y"}] and [{"name": ["n"]}] the
    response carries a graph with that edge and no nodes. *)
Theorem search_graph_failure :
  search (sample_world None (Ok (PList three_records))
            (Ok (PList [xy_record; list_name_only_record])))
         fresh_client "q" 5
  = Ok (ready_client,
        {| items := [text_item 0 "a" nine_tenths; text_item 1 "b" nine_tenths;
                     text_item 2 "c" nine_tenths];
           graph_context := Some {| nodes := []; edges := [xy_edge] |} |})
  /\ graph_loop (sample_world None (Ok (PList three_records))
                   (Ok (PList [xy_record; list_name_only_record])))
                [xy_record; list_name_only_record] [] []
     = (Raise TypeError, [xy_edge])
  /\ (forall w self self' query top_k its e,
         initialize w self = Ok self' ->
         primary_phase w query top_k = (its, None) ->
         cognee_search w GRAPH_COMPLETION query = Raise e ->
         search w self query top_k = Ok (self', {| items := its; graph_context := None |})
         /\ forall R, cognee_search w INSIGHTS query = Ok (PList R) ->
                      List.length its = slice_stop (List.length R) top_k
                      /\ forall i r,
                           nth_error (firstn (slice_stop (List.length R) top_k) R) i = Some r ->
                           exists it, nth_error its i = Some it /\ make_item w i r = Ok it)
  /\ (forall w self self' query top_k its G e es,
         initialize w self = Ok self' ->
         primary_phase w query top_k = (its, None) ->
         cognee_search w GRAPH_COMPLETION query = Ok (PList G) ->
         graph_loop w (firstn (slice_stop (List.length G) top_k) G) [] [] = (Raise e, es) ->
         search w self query top_k
         = Ok (self', {| items := its;
                         graph_context := graph_or_none {| nodes := []; edges := es |} |})).
Proof.
  split; [reflexivity|]. split; [reflexivity|]. split.
  - intros w self self' query top_k its e Hinit Hprim Hgraph. split.
    + rewrite (search_unfold _ _ _ _ _ Hinit).
      unfold search_locals. rewrite Hprim.
      unfold graph_phase. now rewrite Hgraph.
    + intros R HR. rewrite (primary_phase_list _ _ _ _ HR) in Hprim.
      pose proof (process_results_complete _ _ _ _ Hprim) as Hlen.
      rewrite length_firstn in Hlen.
      pose proof (slice_stop_le (List.length R) top_k) as Hle.
      split; [lia|].
      intros i r Hr.
      assert (Hi : (i < List.length its)%nat).
      { rewrite (process_results_complete _ _ _ _ Hprim).
        apply nth_error_Some. now rewrite Hr. }
      destruct (nth_error its i) as [it|] eqn:Hit.
      * exists it. split; [reflexivity|].
        assert (Hit' : nth_error (fst (process_results w 0
                          (firstn (slice_stop (List.length R) top_k) R) [])) i = Some it)
          by now rewrite Hprim.
        apply process_results_nth in Hit'. destruct Hit' as [r' [Hr' Hm]].
        rewrite Hr in Hr'. injection Hr' as <-. exact Hm.
      * apply nth_error_None in Hit. lia.
  - intros w self self' query top_k its G e es Hinit Hprim HG Hloop.
    rewrite (search_unfold _ _ _ _ _ Hinit).
    unfold search_locals. rewrite Hprim. cbn [fst snd].
    now rewrite (graph_phase_list _ _ _ _ HG), Hloop.
Qed.

Lemma search_graph_failure_witness :
  search (sample_world None (Ok (PList three_records)) (Raise backend_down))
         fresh_client "q" 2
  = Ok (ready_client,
        {| items := [text_item 0 "a" nine_tenths; text_item 1 "b" nine_tenths];
           graph_context := None |}).
Proof.
  exact (proj1 (proj1 (proj2 (proj2 search_graph_failure))
                  (sample_world None (Ok (PList three_records)) (Raise backend_down))
                  fresh_client ready_client "q"%string 2
                  [text_item 0 "a" nine_tenths; text_item 1 "b" nine_tenths]
                  backend_down eq_refl eq_refl eq_refl)).
Defined.

(** C9, as amended.  With [OPENAI_API_KEY] unset or empty, [_configure_llm]
    only warns: the health check answers [true] exactly when the client is
    already initialized or the data directory and cognee's data root are set
    up without an exception, and [false] exactly when [initialize] raises. *)
Theorem health_check_without_api_key (w : world) (self : CogneeClient) :
  getenv w "OPENAI_API_KEY" = None \/ getenv w "OPENAI_API_KEY" = Some ""%string ->
  (snd (health_check w self) = true <->
   _initialized self = true \/
   exists p, resolve_mkdir w (data_dir self) = Ok p /\ data_root_directory w p = Ok tt)
  /\ (snd (health_check w self) = false <-> exists e, initialize w self = Raise e).
Proof.
  intros Hkey.
  assert (Hllm : _configure_llm w = Ok tt).
  { unfold _configure_llm. destruct Hkey as [-> | ->]; reflexivity. }
  unfold health_check, initialize. rewrite Hllm. cbn [bind].
  destruct (_initialized self); cbn [snd].
  - split; split; try tauto; try discriminate. intros [e He]. discriminate.
  - destruct (resolve_mkdir w (data_dir self)) as [p|e1]; cbn [bind snd].
    + destruct (data_root_directory w p) as [[]|e2] eqn:Er; cbn [bind snd].
      * split; split; try tauto; try discriminate.
        -- intros _. right. exists p. now split.
        -- intros [e He]. discriminate.
      * split; split; try discriminate.
        -- intros [F | [p' [Hp Hd]]]; [discriminate|].
           injection Hp as <-. rewrite Er in Hd. discriminate.
        -- intros _. now exists e2.
        -- reflexivity.
    + split; split; try discriminate.
      * intros [F | [p' [Hp _]]]; discriminate.
      * intros _. now exists e1.
      * reflexivity.
Qed.

Lemma health_check_without_api_key_witness :
  snd (health_check (sample_world None (Ok (PList [])) (Ok (PList []))) fresh_client) = true.
Proof.
  apply (proj2 (proj1 (health_check_without_api_key
                         (sample_world None (Ok (PList [])) (Ok (PList [])))
                         fresh_client (or_introl eq_refl)))).
  right. exists "/srv/cognee_data"%string. split; reflexivity.
Defined.

(** C9 as stated fails: with no API key in the environment the health check
    answers [true]. *)
Lemma missing_key_counterexample :
  getenv (sample_world None (Ok (PList [])) (Ok (PList []))) "OPENAI_API_KEY" = None
  /\ health_check (sample_world None (Ok (PList [])) (Ok (PList []))) fresh_client
     = (ready_client, true).
Proof. split; reflexivity. Qed.

(** C10. Once [initialize] has returned, [search] always answers.  When a
    record of the slice raises while its item is built, the outer handler
    catches it: the answer holds the items of the records before it, in
    order, and no graph. *)
Theorem search_record_failure
        (w : world) (self self' : CogneeClient) (query : string) (top_k : Z) :
  initialize w self = Ok self' ->
  (exists resp, search w self query top_k = Ok (self', resp))
  /\ forall R pre r post its e,
       cognee_search w INSIGHTS query = Ok (PList R) ->
       firstn (slice_stop (List.length R) top_k) R = pre ++ r :: post ->
       process_results w 0 pre [] = (its, None) ->
       make_item w (List.length pre) r = Raise e ->
       search w self query top_k = Ok (self', {| items := its; graph_context := None |})
       /\ List.length its = List.length pre.
Proof.
  intros Hinit. split.
  - eexists. apply (search_unfold _ _ _ _ _ Hinit).
  - intros R pre r post its e HR Hslice Hpre Hr. split.
    + rewrite (search_unfold _ _ _ _ _ Hinit).
      unfold search_locals. rewrite (primary_phase_list _ _ _ _ HR), Hslice.
      now rewrite (process_results_stop _ _ _ _ _ post _ Hpre Hr).
    + apply (process_results_complete _ _ _ _ Hpre).
Qed.

Lemma search_record_failure_witness :
  search (sample_world None
            (Ok (PList [text_record "a" nine_tenths; null_text_record;
                        text_record "c" nine_tenths]))
            (Ok (PList [])))
         fresh_client "q" 5
  = Ok (ready_client,
        {| items := [text_item 0 "a" nine_tenths]; graph_context := None |}).
Proof.
  exact (proj1 (proj2 (search_record_failure
                         (sample_world None
                            (Ok (PList [text_record "a" nine_tenths; null_text_record;
                                        text_record "c" nine_tenths]))
                            (Ok (PList [])))
                         fresh_client ready_client "q" 5 eq_refl)
                      [text_record "a" nine_tenths; null_text_record;
                       text_record "c" nine_tenths]
                      [text_record "a" nine_tenths] null_text_record
                      [text_record "c" nine_tenths]
                      [text_item 0 "a" nine_tenths] TypeError
                      eq_refl eq_refl eq_refl eq_refl)).
Defined.

(** ** Further properties *)

(** *** Initialization and health *)

(** X1.  A successful [initialize] marks the client initialized and leaves
    its data directory and evidence map alone; from then on [initialize]
    returns the client as it is, whatever the surroundings have become. *)
Theorem initialize_once (w w' : world) (self self' : CogneeClient) :
  initialize w self = Ok self' ->
  _initialized self' = true /\
  data_dir self' = data_dir self /\
  _evidence_map self' = _evidence_map self /\
  initialize w' self' = Ok self'.
Proof.
  unfold initialize at 1. destruct (_initialized self) eqn:Ei.
  - intros H. injection H as <-. repeat split; try assumption.
    unfold initialize. now rewrite Ei.
  - destruct (_configure_llm w) as [u|e]; cbn [bind]; [|discriminate].
    destruct (resolve_mkdir w (data_dir self)) as [p|e]; cbn [bind]; [|discriminate].
    destruct (data_root_directory w p) as [u'|e]; cbn [bind]; [|discriminate].
    intros H. injection H as <-. now repeat split.
Qed.

Lemma initialize_once_witness :
  initialize read_only_world ready_client = Ok ready_client.
Proof.
  exact (proj2 (proj2 (proj2 (initialize_once
                                (sample_world None (Ok (PList [])) (Ok (PList [])))
                                read_only_world fresh_client ready_client eq_refl)))).
Defined.

(** X2.  Once the health check has answered [true], it answers [true] in
    every later surrounding, and [search] on that client never raises. *)
Theorem healthy_stays_healthy (w w' : world) (self : CogneeClient) :
  snd (health_check w self) = true ->
  health_check w' (fst (health_check w self)) = (fst (health_check w self), true) /\
  forall query top_k,
    exists resp,
      search w' (fst (health_check w self)) query top_k
      = Ok (fst (health_check w self), resp).
Proof.
  intros Hok.
  assert (Hhc : exists self', initialize w self = Ok self' /\
                              health_check w self = (self', true)).
  { unfold health_check in *. destruct (initialize w self) as [self'|e]; [|discriminate].
    now exists self'. }
  destruct Hhc as [self' [Hi Hhc]]. rewrite Hhc. cbn [fst].
  destruct (initialize_once w w' self self' Hi) as [_ [_ [_ Hi']]].
  split.
  - unfold health_check. now rewrite Hi'.
  - intros query top_k. eexists. apply (search_unfold _ _ _ _ _ Hi').
Qed.

Lemma healthy_stays_healthy_witness :
  health_check read_only_world
    (fst (health_check (sample_world None (Ok (PList [])) (Ok (PList []))) fresh_client))
  = (fst (health_check (sample_world None (Ok (PList [])) (Ok (PList []))) fresh_client),
     true).
Proof.
  exact (proj1 (healthy_stays_healthy
                  (sample_world None (Ok (PList [])) (Ok (PList [])))
                  read_only_world fresh_client eq_refl)).
Defined.

(** *** The items of a response *)

Lemma primary_items_form (w : world) (query : string) (top_k : Z) :
  exists rs, fst (primary_phase w query top_k) = fst (process_results w 0 rs []).
Proof.
  unfold primary_phase.
  destruct (cognee_search w INSIGHTS query) as [v|e]; [|now exists []].
  destruct (truthy v); [|now exists []].
  destruct (py_slice_to v top_k) as [sl|e]; [|now exists []].
  now exists (py_iter sl).
Qed.

Lemma search_item_made
      (w : world) (self self' : CogneeClient) (query : string) (top_k : Z)
      (resp : response) (i : nat) (it : item) :
  search w self query top_k = Ok (self', resp) ->
  nth_error (items resp) i = Some it ->
  exists r, make_item w i r = Ok it.
Proof.
  intros Hs Hi. apply search_inv in Hs. destruct Hs as [_ [Hits _]].
  rewrite search_locals_items in Hits.
  destruct (primary_items_form w query top_k) as [rs Hrs].
  rewrite Hits, Hrs in Hi. apply process_results_nth in Hi.
  destruct Hi as [r [_ Hm]]. now exists r.
Qed.

Lemma result_id_inj (i j : nat) : result_id i = result_id j -> i = j.
Proof.
  unfold result_id. cbn [append]. intros H.
  repeat (injection H as H).
  apply (f_equal NilEmpty.uint_of_string) in H. rewrite !NilEmpty.usu in H.
  injection H as H. apply (f_equal Nat.of_uint) in H.
  now rewrite !Unsigned.of_to in H.
Qed.

(** X3.  The identifier of the item at position [i] of a response is
    ["result_"] followed by [i] in decimal, and no two items of a response
    share an identifier. *)
Theorem item_ids_by_position
        (w : world) (self self' : CogneeClient) (query : string) (top_k : Z)
        (resp : response) :
  search w self query top_k = Ok (self', resp) ->
  (forall i it, nth_error (items resp) i = Some it ->
                cognee_id it
                = ("result_" ++ NilEmpty.string_of_uint (Nat.to_uint i))%string)
  /\ NoDup (map cognee_id (items resp)).
Proof.
  intros Hs.
  assert (Hid : forall i it, nth_error (items resp) i = Some it ->
                             cognee_id it = result_id i).
  { intros i it Hi. destruct (search_item_made _ _ _ _ _ _ _ _ Hs Hi) as [r Hm].
    now apply make_item_inv in Hm. }
  split; [exact Hid|].
  apply NoDup_nth_error. intros i j Hlt Heq.
  rewrite length_map in Hlt. rewrite !nth_error_map in Heq.
  destruct (nth_error (items resp) i) as [a|] eqn:Ha.
  - destruct (nth_error (items resp) j) as [b|] eqn:Hb; [|discriminate].
    cbn in Heq. injection Heq as Heq.
    rewrite (Hid _ _ Ha), (Hid _ _ Hb) in Heq. now apply result_id_inj.
  - apply nth_error_None in Ha. lia.
Qed.

Lemma item_ids_by_position_witness :
  NoDup (map cognee_id [text_item 0 "a" nine_tenths; text_item 1 "b" nine_tenths]).
Proof.
  exact (proj2 (item_ids_by_position
                  (sample_world None (Ok (PList three_records)) (Ok (PList [])))
                  fresh_client ready_client "q" 2
                  {| items := [text_item 0 "a" nine_tenths; text_item 1 "b" nine_tenths];
                     graph_context := None |}
                  eq_refl)).
Defined.

Lemma slice_to_zero (v sl : pyval) : py_slice_to v 0 = Ok sl -> py_iter sl = [].
Proof.
  destruct v; try discriminate; cbn [py_slice_to]; intros H; injection H as <-.
  - unfold slice_stop. cbn. now destruct (String.length s); destruct s.
  - unfold slice_stop. cbn. now destruct (List.length l).
Qed.

(** X5.  With [top_k = 0] the response is empty, with no graph, whatever
    the backend answers or raises. *)
Theorem zero_top_k_empty
        (w : world) (self self' : CogneeClient) (query : string) :
  initialize w self = Ok self' ->
  search w self query 0 = Ok (self', {| items := []; graph_context := None |}).
Proof.
  intros Hi. rewrite (search_unfold _ _ _ _ _ Hi).
  assert (Hg : graph_or_none (graph_phase w query 0) = None).
  { unfold graph_phase.
    destruct (cognee_search w GRAPH_COMPLETION query) as [v|e]; [|reflexivity].
    destruct (truthy v); [|reflexivity].
    destruct (py_slice_to v 0) as [sl|e] eqn:Hsl; [|reflexivity].
    now rewrite (slice_to_zero _ _ Hsl). }
  unfold search_locals, primary_phase.
  destruct (cognee_search w INSIGHTS query) as [v|e]; [|reflexivity].
  destruct (truthy v).
  - destruct (py_slice_to v 0) as [sl|e] eqn:Hsl; [|reflexivity].
    rewrite (slice_to_zero _ _ Hsl). cbn [process_results fst snd]. now rewrite Hg.
  - cbn [fst snd]. now rewrite Hg.
Qed.

Lemma zero_top_k_empty_witness :
  search (sample_world None (Ok (PList three_records)) (Ok (PList [xy_record])))
         fresh_client "q" 0
  = Ok (ready_client, {| items := []; graph_context := None |}).
Proof.
  exact (zero_top_k_empty
           (sample_world None (Ok (PList three_records)) (Ok (PList [xy_record])))
           fresh_client ready_client "q" eq_refl).
Defined.

(** X6.  A record that is not a mapping always gets an empty metadata
    mapping and a string snippet.  Without a [payload] attribute it never
    fails: the snippet is the first 500 characters of its string form and
    the score is the clamped positional fallback.  With a [payload] it fails
    exactly when its [score] attribute is there and is not a number. *)
Theorem non_mapping_record (w : world) (i : nat) (r : pyval) :
  (forall d, r <> PDict d) ->
  (forall it, make_item w i r = Ok it ->
              metadata it = PDict [] /\ exists s, snippet it = PStr s)
  /\ (attr r "payload" = None ->
      exists sc, clamp (PFloat (fallback_score i)) = Ok sc /\
                 make_item w i r
                 = Ok {| cognee_id := result_id i;
                         snippet := PStr (substring 0 500 (py_str w r));
                         score := sc;
                         metadata := PDict [] |})
  /\ (forall payload, attr r "payload" = Some payload ->
      ((exists e, make_item w i r = Raise e) <->
       exists v, attr r "score" = Some v /\ as_number v = None)).
Proof.
  intros Hnd.
  assert (Hex : extract w i r =
                match attr r "payload" with
                | Some payload =>
                    (PStr (py_str w payload),
                     getattr r "score" (PFloat (fallback_score i)), PDict [])
                | None => (PStr (py_str w r), PFloat (fallback_score i), PDict [])
                end).
  { destruct r; try reflexivity. now destruct (Hnd d). }
  assert (Hcut : forall s, py_slice_to (PStr s) 500 = Ok (PStr (substring 0 500 s))).
  { intros s. cbn [py_slice_to]. rewrite slice_stop_500.
    destruct (Nat.le_ge_cases 500 (String.length s)) as [Hl|Hl].
    - now rewrite Nat.min_l by exact Hl.
    - rewrite Nat.min_r by exact Hl. now rewrite !substring_0_all by lia. }
  assert (Hfl : forall f, exists sc, clamp (PFloat f) = Ok sc).
  { intros f. unfold clamp, py_max, float_gt. cbn [as_number bind].
    destruct (xnum_ltb (xnum_of_float f) (xnum_of_float F.zero));
      unfold py_min, float_lt; cbn [as_number bind]; eexists; reflexivity. }
  split; [|split].
  - intros it Hm. apply make_item_inv in Hm. destruct Hm as [_ [Hsl [_ Hmd]]].
    rewrite Hex in Hsl, Hmd.
    destruct (attr r "payload"); cbn [fst snd] in Hsl, Hmd;
      rewrite Hcut in Hsl; injection Hsl as Hsl; (split; [exact Hmd|]);
      eexists; symmetry; exact Hsl.
  - intros Hnp. destruct (Hfl (fallback_score i)) as [sc Hsc].
    exists sc. split; [exact Hsc|].
    unfold make_item. rewrite Hex, Hnp, Hcut. cbn [bind]. now rewrite Hsc.
  - intros payload Hp. unfold make_item. rewrite Hex, Hp, Hcut. cbn [bind].
    unfold getattr. destruct (attr r "score") as [v|].
    + destruct (as_number v) as [n|] eqn:En.
      * assert (Hv : exists sc, clamp v = Ok sc).
        { unfold clamp, py_max, float_gt. rewrite En. cbn [bind].
          destruct (xnum_ltb n (xnum_of_float F.zero)); unfold py_min, float_lt;
            [cbn [as_number bind] | rewrite En; cbn [bind]]; eexists; reflexivity. }
        destruct Hv as [sc ->]. cbn [bind].
        split; [intros [e He]; discriminate | intros [v' [Hv' Hn']]].
        injection Hv' as <-. congruence.
      * assert (Hv : clamp v = Raise TypeError).
        { unfold clamp, py_max, float_gt. now rewrite En. }
        rewrite Hv. cbn [bind].
        split; [intros _; now exists v | intros _; now exists TypeError].
    + destruct (Hfl (fallback_score i)) as [sc ->]. cbn [bind].
      split; [intros [e He]; discriminate | intros [v [Hv _]]; discriminate].
Qed.

Lemma non_mapping_record_witness :
  (exists e, make_item (sample_world None (Ok (PList [])) (Ok (PList []))) 0
                       (payload_object PNone) = Raise e) <->
  exists v, attr (payload_object PNone) "score" = Some v /\ as_number v = None.
Proof.
  refine (proj2 (proj2 (non_mapping_record
                          (sample_world None (Ok (PList [])) (Ok (PList []))) 0
                          (payload_object PNone) _)) (PStr "p") eq_refl).
  intros d H. discriminate H.
Defined.

(** X7.  Within the 50 records a request can ask for, the positional
    fallback passes the clamp unchanged at positions 0 to 9, where it is
    positive and strictly decreasing, and is clamped to [0.0] at every
    position from 10 on. *)
Theorem fallback_ladder (i : nat) :
  (i < 50)%nat ->
  clamp (PFloat (fallback_score i))
  = Ok (PFloat (if (i <? 10)%nat then fallback_score i else F.zero))
  /\ ((i < 10)%nat ->
      xnum_ltb (xnum_of_float F.zero) (xnum_of_float (fallback_score i)) = true /\
      xnum_ltb (xnum_of_float (fallback_score (S i))) (xnum_of_float (fallback_score i))
      = true).
Proof.
  intros H.
  do 50 (destruct i as [|i];
         [split; [reflexivity | first [intros _; split; reflexivity | intros F; lia]] | ]).
  lia.
Qed.

Lemma fallback_ladder_witness :
  clamp (PFloat (fallback_score 12)) = Ok (PFloat F.zero).
Proof.
  exact (proj1 (fallback_ladder 12 ltac:(lia))).
Defined.

(** *** The graph of a response *)

(** X8.  A returned graph holds at most one node and at most one edge per
    graph record of the slice: for a top_k that is not negative, at most
    [min(len(G), top_k)] of each. *)
Theorem graph_bounded_by_top_k
        (w : world) (self self' : CogneeClient) (query : string) (top_k : Z)
        (G : list pyval) (resp : response) (g : graph) :
  0 <= top_k ->
  cognee_search w GRAPH_COMPLETION query = Ok (PList G) ->
  search w self query top_k = Ok (self', resp) ->
  graph_context resp = Some g ->
  Z.of_nat (List.length (nodes g)) <= Z.min (Z.of_nat (List.length G)) top_k /\
  Z.of_nat (List.length (edges g)) <= Z.min (Z.of_nat (List.length G)) top_k.
Proof.
  intros Hk HG Hs Hg.
  rewrite (returned_graph_is_phase _ _ _ _ _ _ _ Hs Hg), (graph_phase_list _ _ _ _ HG).
  set (rs := firstn (slice_stop (List.length G) top_k) G).
  assert (Hrs : Z.of_nat (List.length rs) <= Z.min (Z.of_nat (List.length G)) top_k).
  { unfold rs. rewrite length_firstn.
    pose proof (slice_stop_le (List.length G) top_k).
    pose proof (slice_stop_nonneg (List.length G) top_k Hk). lia. }
  pose proof (graph_loop_spec w rs [] [] key_distinct_nil) as Hl.
  destruct (graph_loop w rs [] []) as [[seen|e] es]; cbn [nodes edges List.length].
  - destruct Hl as [-> [_ [Hn _]]]. cbn [app List.length] in *.
    pose proof (flat_map_edge_of_length rs). lia.
  - destruct Hl as [pre [r [post [Hsplit [-> _]]]]]. cbn [app].
    pose proof (flat_map_edge_of_length pre).
    rewrite Hsplit, length_app in Hrs. cbn [List.length] in Hrs. lia.
Qed.

Lemma graph_bounded_by_top_k_witness :
  Z.of_nat (List.length (nodes {| nodes := []; edges := [xy_edge] |}))
  <= Z.min (Z.of_nat (List.length [xy_record; xy_record])) 1 /\
  Z.of_nat (List.length (edges {| nodes := []; edges := [xy_edge] |}))
  <= Z.min (Z.of_nat (List.length [xy_record; xy_record])) 1.
Proof.
  exact (graph_bounded_by_top_k
           (sample_world None (Ok (PList [])) (Ok (PList [xy_record; xy_record])))
           fresh_client ready_client "q" 1 [xy_record; xy_record]
           {| items := []; graph_context := Some {| nodes := []; edges := [xy_edge] |} |}
           {| nodes := []; edges := [xy_edge] |}
           ltac:(lia) eq_refl eq_refl eq_refl).
Defined.

(** X9.  The nodes of a returned graph are pairwise distinct as set keys;
    in particular no string occurs twice among them. *)
Theorem graph_nodes_distinct
        (w : world) (self self' : CogneeClient) (query : string) (top_k : Z)
        (resp : response) (g : graph) :
  search w self query top_k = Ok (self', resp) ->
  graph_context resp = Some g ->
  key_distinct (nodes g) /\
  forall i j a b, i <> j ->
                  nth_error (nodes g) i = Some (PStr a) ->
                  nth_error (nodes g) j = Some (PStr b) ->
                  a <> b.
Proof.
  intros Hs Hg.
  assert (Hd : key_distinct (nodes g)).
  { rewrite (returned_graph_is_phase _ _ _ _ _ _ _ Hs Hg).
    destruct (graph_phase_form w query top_k) as [-> | [rs ->]];
      [exact key_distinct_nil|].
    pose proof (graph_loop_spec w rs [] [] key_distinct_nil) as Hl.
    destruct (graph_loop w rs [] []) as [[seen|e] es]; cbn [nodes];
      [now destruct Hl as [_ [Hd _]] | exact key_distinct_nil]. }
  split; [exact Hd|].
  intros i j a b Hij Hi Hj Hab. subst b.
  destruct (Nat.lt_gt_cases i j) as [Hc _]. destruct (Hc Hij) as [Hlt|Hlt].
  - pose proof (Hd _ _ _ _ Hlt Hi Hj) as F. cbn in F. now rewrite String.eqb_refl in F.
  - pose proof (Hd _ _ _ _ Hlt Hj Hi) as F. cbn in F. now rewrite String.eqb_refl in F.
Qed.

Lemma graph_nodes_distinct_witness :
  key_distinct [PStr "A"; PStr "B"] /\
  forall i j a b, i <> j ->
                  nth_error [PStr "A"; PStr "B"] i = Some (PStr a) ->
                  nth_error [PStr "A"; PStr "B"] j = Some (PStr b) ->
                  a <> b.
Proof.
  exact (graph_nodes_distinct
           (sample_world None (Ok (PList []))
              (Ok (PList [named_object 1 "A"; named_object 2 "A";
                          PDict [("name"%string, PStr "B")]])))
           fresh_client ready_client "q" 5
           {| items := [];
              graph_context := Some {| nodes := [PStr "A"; PStr "B"]; edges := [] |} |}
           {| nodes := [PStr "A"; PStr "B"]; edges := [] |}
           eq_refl eq_refl).
Defined.

(** X10.  When the primary phase ended normally and the graph query
    returned a list, the edges of the response are those of the mapping
    records of the slice that have both [source] and [target], in the order
    of the records; when the loop is cut short, it is by the first record of
    the slice whose name cannot be hashed, the edges are those of the
    records before that one, and the nodes are dropped. *)
Theorem graph_edges_in_record_order
        (w : world) (self self' : CogneeClient) (query : string) (top_k : Z)
        (G : list pyval) (resp : response) :
  snd (primary_phase w query top_k) = None ->
  cognee_search w GRAPH_COMPLETION query = Ok (PList G) ->
  search w self query top_k = Ok (self', resp) ->
  (forall seen es,
      graph_loop w (firstn (slice_stop (List.length G) top_k) G) [] [] = (Ok seen, es) ->
      graph_context resp
      = graph_or_none
          {| nodes := seen;
             edges := flat_map edge_of (firstn (slice_stop (List.length G) top_k) G) |})
  /\ (forall e es,
         graph_loop w (firstn (slice_stop (List.length G) top_k) G) [] [] = (Raise e, es) ->
         exists pre r post,
           firstn (slice_stop (List.length G) top_k) G = pre ++ r :: post /\
           forallb name_hashable pre = true /\
           name_hashable r = false /\
           graph_context resp
           = graph_or_none {| nodes := []; edges := flat_map edge_of pre |}).
Proof.
  intros Hprim HG Hs. apply search_inv in Hs. destruct Hs as [_ [_ Hgc]].
  assert (Hl : snd (search_locals w query top_k) = graph_phase w query top_k).
  { unfold search_locals. destruct (primary_phase w query top_k) as [its err].
    cbn [snd] in Hprim. now subst err. }
  rewrite Hl, (graph_phase_list _ _ _ _ HG) in Hgc.
  pose proof (graph_loop_spec w (firstn (slice_stop (List.length G) top_k) G) [] []
                              key_distinct_nil) as Hspec.
  split.
  - intros seen es Hloop. rewrite Hloop in Hgc, Hspec.
    destruct Hspec as [-> _]. exact Hgc.
  - intros e es Hloop. rewrite Hloop in Hgc, Hspec.
    destruct Hspec as [pre [r [post [Hsplit [-> [Hpre Hr]]]]]].
    exists pre, r, post. repeat split; assumption.
Qed.

Lemma graph_edges_in_record_order_witness :
  exists pre r post,
    firstn (slice_stop (List.length [xy_record; list_name_record; xy_record]) 5)
           [xy_record; list_name_record; xy_record]
    = pre ++ r :: post /\
    forallb name_hashable pre = true /\
    name_hashable r = false /\
    Some {| nodes := []; edges := [xy_edge] |}
    = graph_or_none {| nodes := []; edges := flat_map edge_of pre |}.
Proof.
  exact (proj2 (graph_edges_in_record_order
                  (sample_world None (Ok (PList []))
                     (Ok (PList [xy_record; list_name_record; xy_record])))
                  fresh_client ready_client "q" 5
                  [xy_record; list_name_record; xy_record]
                  {| items := [];
                     graph_context := Some {| nodes := []; edges := [xy_edge] |} |}
                  eq_refl eq_refl eq_refl)
               TypeError [xy_edge] eq_refl).
Defined.

(** *** Ingestion *)

Lemma assoc_dict_set_same {A : Type} (k : string) (v : A) (d : list (string * A)) :
  assoc k (dict_set k v d) = Some v.
Proof.
  induction d as [|[k' v'] d IH]; cbn.
  - now rewrite String.eqb_refl.
  - destruct (String.eqb k k') eqn:E; cbn.
    + now rewrite String.eqb_refl.
    + now rewrite E.
Qed.

Lemma assoc_dict_set_other {A : Type} (k k0 : string) (v : A) (d : list (string * A)) :
  k0 <> k -> assoc k0 (dict_set k v d) = assoc k0 d.
Proof.
  intros Hne. induction d as [|[k' v'] d IH]; cbn.
  - apply String.eqb_neq in Hne. now rewrite Hne.
  - destruct (String.eqb k k') eqn:E; cbn.
    + apply String.eqb_eq in E. subst k'.
      apply String.eqb_neq in Hne. now rewrite Hne.
    + now rewrite IH.
Qed.

Lemma dict_set_keys {A : Type} (k : string) (v : A) (d : list (string * A)) (x : string) :
  In x (map fst (dict_set k v d)) <-> x = k \/ In x (map fst d).
Proof.
  induction d as [|[k' v'] d IH]; cbn.
  - intuition congruence.
  - destruct (String.eqb k k') eqn:E; cbn.
    + apply String.eqb_eq in E. subst k'. intuition congruence.
    + rewrite IH. intuition congruence.
Qed.

Lemma dict_set_nodup {A : Type} (k : string) (v : A) (d : list (string * A)) :
  NoDup (map fst d) -> NoDup (map fst (dict_set k v d)).
Proof.
  induction d as [|[k' v'] d IH]; cbn; intros Hnd.
  - constructor; [intros []|constructor].
  - inversion Hnd as [|? ? Hnin Hnd']; subst.
    destruct (String.eqb k k') eqn:E; cbn.
    + apply String.eqb_eq in E. subst k'. now constructor.
    + constructor; [|now apply IH].
      rewrite dict_set_keys. intros [-> | Hin]; [|contradiction].
      now rewrite String.eqb_refl in E.
Qed.

Lemma dict_set_known {A : Type} (k : string) (v : A) (d : list (string * A)) :
  assoc k d = Some v -> dict_set k v d = d.
Proof.
  induction d as [|[k' v'] d IH]; cbn; [discriminate|].
  destruct (String.eqb k k') eqn:E.
  - apply String.eqb_eq in E. subst k'. intros H. now injection H as ->.
  - intros H. now rewrite IH.
Qed.

(** X11.  A successful [ingest] returns ["cognee_"] followed by the evidence
    id and records it under that id in the evidence map, leaving every other
    entry, and the data directory, as they were. *)
Theorem ingest_records_id
        (w : world) (b : indexing) (self self' : CogneeClient)
        (evidence_id content content_type : string) (metadata : list (string * pyval))
        (cid : string) :
  ingest w b self evidence_id content content_type metadata = (self', Ok cid) ->
  cid = ("cognee_" ++ evidence_id)%string /\
  assoc evidence_id (_evidence_map self') = Some cid /\
  (forall k, k <> evidence_id ->
             assoc k (_evidence_map self') = assoc k (_evidence_map self)) /\
  _initialized self' = true /\
  data_dir self' = data_dir self.
Proof.
  unfold ingest.
  destruct (initialize w self) as [self1|e] eqn:Hi; [|discriminate].
  destruct (initialize_once w w self self1 Hi) as [Hinit [Hdir [Hmap _]]].
  destruct (cognee_add b _ _) as [u|e]; [|discriminate].
  intros H. injection H as <- <-. cbn [_evidence_map _initialized data_dir].
  rewrite Hmap. repeat split.
  - apply assoc_dict_set_same.
  - intros k Hk. now apply assoc_dict_set_other.
  - exact Hinit.
  - exact Hdir.
Qed.

Lemma ingest_records_id_witness :
  assoc "e1" (_evidence_map
                {| data_dir := "cognee_data"; _initialized := true;
                   _evidence_map := [("e1", "cognee_e1")]%string |})
  = Some "cognee_e1"%string.
Proof.
  exact (proj1 (proj2 (ingest_records_id
                         (sample_world None (Ok (PList [])) (Ok (PList [])))
                         (sample_indexing (Ok tt) (Ok tt))
                         fresh_client
                         {| data_dir := "cognee_data"; _initialized := true;
                            _evidence_map := [("e1", "cognee_e1")]%string |}
                         "e1" "disk full" "log" [] "cognee_e1" eq_refl))).
Defined.

(** X12.  An [ingest] that raises records nothing: the evidence map and the
    data directory are as before, and the exception is the one [initialize]
    raised, the client being untouched, or the one [cognee.add] raised, the
    client being left initialized. *)
Theorem ingest_failure_records_nothing
        (w : world) (b : indexing) (self self' : CogneeClient)
        (evidence_id content content_type : string) (metadata : list (string * pyval))
        (e : exn) :
  ingest w b self evidence_id content content_type metadata = (self', Raise e) ->
  _evidence_map self' = _evidence_map self /\
  data_dir self' = data_dir self /\
  ((initialize w self = Raise e /\ self' = self) \/
   (initialize w self = Ok self' /\ _initialized self' = true /\
    cognee_add b (enriched_content w content_type metadata content)
               ("evidence_" ++ evidence_id)%string = Raise e)).
Proof.
  unfold ingest.
  destruct (initialize w self) as [self1|e1] eqn:Hi.
  - destruct (initialize_once w w self self1 Hi) as [Hinit [Hdir [Hmap _]]].
    destruct (cognee_add b _ _) as [u|e2] eqn:Ha; [discriminate|].
    intros H. injection H as <- <-. repeat split; try assumption.
    right. now repeat split.
  - intros H. injection H as <- <-. repeat split. now left.
Qed.

Lemma ingest_failure_records_nothing_witness :
  _evidence_map ready_client = _evidence_map fresh_client.
Proof.
  exact (proj1 (ingest_failure_records_nothing
                  (sample_world None (Ok (PList [])) (Ok (PList [])))
                  (sample_indexing (Raise disk_error) (Ok tt))
                  fresh_client ready_client "e1" "disk full" "log" [] disk_error
                  eq_refl)).
Defined.

(** X13.  [ingest] keeps one entry per evidence id in the evidence map: it
    never duplicates a key, and ingesting an id that is already recorded
    leaves the map as it was. *)
Theorem evidence_map_one_entry_per_id
        (w : world) (b : indexing) (self : CogneeClient)
        (evidence_id content content_type : string) (metadata : list (string * pyval)) :
  NoDup (map fst (_evidence_map self)) ->
  NoDup (map fst (_evidence_map
                    (fst (ingest w b self evidence_id content content_type metadata))))
  /\ (assoc evidence_id (_evidence_map self) = Some ("cognee_" ++ evidence_id)%string ->
      _evidence_map (fst (ingest w b self evidence_id content content_type metadata))
      = _evidence_map self).
Proof.
  intros Hnd. unfold ingest.
  destruct (initialize w self) as [self1|e1] eqn:Hi; cbn [fst].
  - destruct (initialize_once w w self self1 Hi) as [_ [_ [Hmap _]]].
    destruct (cognee_add b _ _) as [u|e2]; cbn [fst _evidence_map]; rewrite Hmap.
    + split; [now apply dict_set_nodup | intros Hk; now apply dict_set_known].
    + now split.
  - now split.
Qed.

Lemma evidence_map_one_entry_per_id_witness :
  NoDup (map fst (_evidence_map
                    (fst (ingest (sample_world None (Ok (PList [])) (Ok (PList [])))
                                 (sample_indexing (Ok tt) (Ok tt))
                                 fresh_client "e1" "disk full" "log" [])))).
Proof.
  exact (proj1 (evidence_map_one_entry_per_id
                  (sample_world None (Ok (PList [])) (Ok (PList [])))
                  (sample_indexing (Ok tt) (Ok tt))
                  fresh_client "e1" "disk full" "log" [] (NoDup_nil string))).
Defined.

(** *** The endpoints *)

Lemma assoc_absent {A : Type} (k : string) (d : list (string * A)) :
  ~ In k (map fst d) -> assoc k d = None.
Proof.
  induction d as [|[k' v'] d IH]; cbn; [reflexivity|].
  intros Hn. destruct (String.eqb k k') eqn:E.
  - apply String.eqb_eq in E. subst k'. exfalso. apply Hn. now left.
  - apply IH. intros Hin. apply Hn. now right.
Qed.

(** [update] with a mapping whose keys are distinct: its entries win. *)
Lemma assoc_dict_update {A : Type} (other : list (string * A)) :
  forall d k,
    NoDup (map fst other) ->
    assoc k (dict_update d other) =
    match assoc k other with
    | Some v => Some v
    | None => assoc k d
    end.
Proof.
  induction other as [|[k1 v1] other IH]; intros d k Hnd; [reflexivity|].
  cbn [map fst] in Hnd. inversion Hnd as [|? ? Hnin Hnd']; subst.
  unfold dict_update. cbn [fold_left fst snd].
  change (fold_left (fun acc kv => dict_set (fst kv) (snd kv) acc) other (dict_set k1 v1 d))
    with (dict_update (dict_set k1 v1 d) other).
  rewrite (IH _ _ Hnd'). cbn [assoc].
  destruct (String.eqb k k1) eqn:E.
  - apply String.eqb_eq in E. subst k1.
    rewrite (assoc_absent _ _ Hnin). apply assoc_dict_set_same.
  - destruct (assoc k other); [reflexivity|].
    apply assoc_dict_set_other. intros ->. now rewrite String.eqb_refl in E.
Qed.

(** X14.  [POST /ingest] hands cognee the metadata in which the entries of
    [extra] win over the declared [source] and [timestamp]: the text sent to
    [cognee.add] names the [source] of [extra] when it has one, and the
    declared source otherwise, never ["unknown"]. *)
Theorem extra_overrides_declared (w : world) (request : Main.IngestRequest) :
  NoDup (map fst (match Main.extra (Main.metadata request) with
                  | Some ex => ex
                  | None => []
                  end)) ->
  (forall k,
      assoc k (Main.request_metadata request) =
      match assoc k (match Main.extra (Main.metadata request) with
                     | Some ex => ex
                     | None => []
                     end) with
      | Some v => Some v
      | None =>
          assoc k [("source"%string, PStr (Main.source (Main.metadata request)));
                   ("timestamp"%string, PStr (Main.timestamp (Main.metadata request)))]
      end)
  /\ enriched_content w (Main.content_type_str (Main.content_type request))
                      (Main.request_metadata request) (Main.content request)
     = ("[" ++ Main.content_type_str (Main.content_type request) ++ "] [source: "
            ++ py_str w (match assoc "source"
                                 (match Main.extra (Main.metadata request) with
                                  | Some ex => ex
                                  | None => []
                                  end) with
                         | Some v => v
                         | None => PStr (Main.source (Main.metadata request))
                         end)
            ++ "]" ++ newline ++ Main.content request)%string.
Proof.
  intros Hnd.
  assert (Hall : forall k,
      assoc k (Main.request_metadata request) =
      match assoc k (match Main.extra (Main.metadata request) with
                     | Some ex => ex
                     | None => []
                     end) with
      | Some v => Some v
      | None =>
          assoc k [("source"%string, PStr (Main.source (Main.metadata request)));
                   ("timestamp"%string, PStr (Main.timestamp (Main.metadata request)))]
      end).
  { intros k. unfold Main.request_metadata.
    destruct (Main.extra (Main.metadata request)) as [[|kv more]|]; try reflexivity.
    now apply assoc_dict_update. }
  split; [exact Hall|].
  unfold enriched_content, dict_get. rewrite (Hall "source"%string).
  now destruct (assoc "source" _).
Qed.

Lemma extra_overrides_declared_witness :
  enriched_content (sample_world None (Ok (PList [])) (Ok (PList [])))
                   "log" (Main.request_metadata sample_request) "disk full"
  = ("[log] [source: override]" ++ newline ++ "disk full")%string.
Proof.
  exact (proj2 (extra_overrides_declared
                  (sample_world None (Ok (PList [])) (Ok (PList [])))
                  sample_request
                  (NoDup_cons "source"%string (fun F : In "source"%string [] => F)
                              (NoDup_nil string)))).
Defined.

(** X15.  [POST /ingest] answers in one of two ways.  When [initialize] or
    [cognee.add] raises, it is the HTTP error 500 whose detail is ["Ingest
    failed: "] followed by the text of the exception.  Otherwise it is
    ["cognee_"] followed by the evidence id, which the module-level client
    then records. *)
Theorem ingest_endpoint_outcomes
        (w : world) (b : indexing) (_client : option CogneeClient)
        (request : Main.IngestRequest) :
  (forall e,
      initialize w (snd (get_cognee_client w _client)) = Raise e ->
      Main.ingest_evidence w b _client request
      = (Some (snd (get_cognee_client w _client)),
         Main.HTTPException 500 ("Ingest failed: " ++ exn_str e)%string))
  /\ (forall c1 e,
         initialize w (snd (get_cognee_client w _client)) = Ok c1 ->
         cognee_add b
           (enriched_content w (Main.content_type_str (Main.content_type request))
                             (Main.request_metadata request) (Main.content request))
           ("evidence_" ++ Main.evidence_id request)%string = Raise e ->
         Main.ingest_evidence w b _client request
         = (Some c1, Main.HTTPException 500 ("Ingest failed: " ++ exn_str e)%string))
  /\ (forall c1 u,
         initialize w (snd (get_cognee_client w _client)) = Ok c1 ->
         cognee_add b
           (enriched_content w (Main.content_type_str (Main.content_type request))
                             (Main.request_metadata request) (Main.content request))
           ("evidence_" ++ Main.evidence_id request)%string = Ok u ->
         exists c2,
           Main.ingest_evidence w b _client request
           = (Some c2,
              Main.Returned
                {| Main.cognee_id := ("cognee_" ++ Main.evidence_id request)%string |})
           /\ assoc (Main.evidence_id request) (_evidence_map c2)
              = Some ("cognee_" ++ Main.evidence_id request)%string
           /\ _initialized c2 = true).
Proof.
  unfold Main.ingest_evidence.
  destruct (get_cognee_client w _client) as [g client]. cbn [snd].
  repeat split.
  - intros e Hi. unfold ingest. now rewrite Hi.
  - intros c1 e Hi Ha. unfold ingest. now rewrite Hi, Ha.
  - intros c1 u Hi Ha.
    destruct (ingest w b client (Main.evidence_id request) (Main.content request)
                     (Main.content_type_str (Main.content_type request))
                     (Main.request_metadata request)) as [c2 o] eqn:Hing.
    assert (Ho : o = Ok ("cognee_" ++ Main.evidence_id request)%string).
    { unfold ingest in Hing. rewrite Hi, Ha in Hing. now injection Hing as _ <-. }
    subst o. exists c2. split; [reflexivity|].
    destruct (ingest_records_id _ _ _ _ _ _ _ _ _ Hing) as [_ [Hm [_ [Hin _]]]].
    now split.
Qed.

(** X16.  [POST /cognify] never answers with an HTTP error: its status is
    ["completed"] when [initialize] and [cognee.cognify] both return, and
    ["error"] with the text of the exception as message when either raises. *)
Theorem cognify_endpoint_outcomes
        (w : world) (b : indexing) (_client : option CogneeClient) :
  (forall e,
      initialize w (snd (get_cognee_client w _client)) = Raise e ->
      Main.run_cognify w b _client
      = (Some (snd (get_cognee_client w _client)),
         Main.Returned {| Main.cognify_status := "error";
                          Main.cognify_message := Some (exn_str e) |}))
  /\ (forall c1 e,
         initialize w (snd (get_cognee_client w _client)) = Ok c1 ->
         cognee_cognify b = Raise e ->
         Main.run_cognify w b _client
         = (Some c1,
            Main.Returned {| Main.cognify_status := "error";
                             Main.cognify_message := Some (exn_str e) |}))
  /\ (forall c1 u,
         initialize w (snd (get_cognee_client w _client)) = Ok c1 ->
         cognee_cognify b = Ok u ->
         Main.run_cognify w b _client
         = (Some c1,
            Main.Returned {| Main.cognify_status := "completed";
                             Main.cognify_message := None |}))
  /\ exists g r, Main.run_cognify w b _client = (g, Main.Returned r).
Proof.
  unfold Main.run_cognify, cognify.
  destruct (get_cognee_client w _client) as [g client]. cbn [snd].
  repeat split.
  - intros e Hi. now rewrite Hi.
  - intros c1 e Hi Hc. now rewrite Hi, Hc.
  - intros c1 u Hi Hc. now rewrite Hi, Hc.
  - destruct (initialize w client) as [c1|e]; [|eexists; eexists; reflexivity].
    destruct (cognee_cognify b); eexists; eexists; reflexivity.
Qed.

Lemma get_cognee_client_some (w : world) (c : CogneeClient) :
  get_cognee_client w (Some c) = (Some c, c).
Proof. reflexivity. Qed.

(** X17.  The module-level client persists between requests.  After one
    [POST /ingest] has succeeded, and whatever the surroundings have become:
    [GET /health] answers ["ok"], [POST /cognify] skips initialization and
    answers by [cognee.cognify] alone, and a later successful [POST /ingest]
    leaves a client that records both evidence ids. *)
Theorem client_persists_across_requests
        (w w' : world) (b b' : indexing) (g g' : option CogneeClient)
        (request : Main.IngestRequest) (r : Main.IngestResponse) :
  Main.ingest_evidence w b g request = (g', Main.Returned r) ->
  Main.health_check w' g'
  = (g', Main.Returned {| Main.health_status := "ok"; Main.health_message := None |})
  /\ Main.run_cognify w' b' g'
     = (g', Main.Returned
              match cognee_cognify b' with
              | Ok _ => {| Main.cognify_status := "completed";
                           Main.cognify_message := None |}
              | Raise e => {| Main.cognify_status := "error";
                              Main.cognify_message := Some (exn_str e) |}
              end)
  /\ forall request' g'' r',
       Main.ingest_evidence w' b' g' request' = (g'', Main.Returned r') ->
       exists c,
         g'' = Some c /\
         assoc (Main.evidence_id request) (_evidence_map c)
         = Some ("cognee_" ++ Main.evidence_id request)%string /\
         assoc (Main.evidence_id request') (_evidence_map c)
         = Some ("cognee_" ++ Main.evidence_id request')%string.
Proof.
  intros H.
  assert (Hc : exists c, g' = Some c /\ _initialized c = true /\
                         assoc (Main.evidence_id request) (_evidence_map c)
                         = Some ("cognee_" ++ Main.evidence_id request)%string).
  { unfold Main.ingest_evidence in H.
    destruct (get_cognee_client w g) as [g0 client].
    destruct (ingest w b client (Main.evidence_id request) (Main.content request)
                     (Main.content_type_str (Main.content_type request))
                     (Main.request_metadata request)) as [c2 [cid|e]] eqn:Hing;
      [|discriminate].
    injection H as <- _. exists c2.
    destruct (ingest_records_id _ _ _ _ _ _ _ _ _ Hing) as [-> [Hm [_ [Hin _]]]].
    now repeat split. }
  destruct Hc as [c [-> [Hin Hrec]]].
  assert (Hi : forall w0, initialize w0 c = Ok c).
  { intros w0. unfold initialize. now rewrite Hin. }
  split; [|split].
  - unfold Main.health_check. rewrite get_cognee_client_some.
    unfold health_check. now rewrite Hi.
  - unfold Main.run_cognify. rewrite get_cognee_client_some.
    unfold cognify. rewrite Hi. now destruct (cognee_cognify b').
  - intros request' g'' r' H'. unfold Main.ingest_evidence in H'.
    rewrite get_cognee_client_some in H'.
    destruct (ingest w' b' c (Main.evidence_id request') (Main.content request')
                     (Main.content_type_str (Main.content_type request'))
                     (Main.request_metadata request')) as [c3 [cid|e]] eqn:Hing;
      [|discriminate].
    injection H' as <- _. exists c3. split; [reflexivity|].
    destruct (ingest_records_id _ _ _ _ _ _ _ _ _ Hing) as [-> [Hm [Hother _]]].
    split; [|exact Hm].
    destruct (String.eqb (Main.evidence_id request) (Main.evidence_id request')) eqn:E.
    + apply String.eqb_eq in E. now rewrite E.
    + apply String.eqb_neq in E. now rewrite (Hother _ E).
Qed.

Lemma client_persists_across_requests_witness :
  Main.health_check read_only_world
    (Some {| data_dir := "./cognee_data"; _initialized := true;
             _evidence_map := [("e1", "cognee_e1")]%string |})
  = (Some {| data_dir := "./cognee_data"; _initialized := true;
             _evidence_map := [("e1", "cognee_e1")]%string |},
     Main.Returned {| Main.health_status := "ok"; Main.health_message := None |}).
Proof.
  exact (proj1 (client_persists_across_requests
                  (sample_world None (Ok (PList [])) (Ok (PList [])))
                  read_only_world
                  (sample_indexing (Ok tt) (Ok tt)) (sample_indexing (Ok tt) (Ok tt))
                  None
                  (Some {| data_dir := "./cognee_data"; _initialized := true;
                           _evidence_map := [("e1", "cognee_e1")]%string |})
                  sample_request {| Main.cognee_id := "cognee_e1" |} eq_refl)).
Defined.

Lemma ingest_endpoint_outcomes_witness :
  Main.ingest_evidence (sample_world None (Ok (PList [])) (Ok (PList [])))
                       (sample_indexing (Raise disk_error) (Ok tt)) None sample_request
  = (Some {| data_dir := "./cognee_data"; _initialized := true; _evidence_map := [] |},
     Main.HTTPException 500 "Ingest failed: disk full").
Proof.
  exact (proj1 (proj2 (ingest_endpoint_outcomes
                         (sample_world None (Ok (PList [])) (Ok (PList [])))
                         (sample_indexing (Raise disk_error) (Ok tt)) None sample_request))
               {| data_dir := "./cognee_data"; _initialized := true; _evidence_map := [] |}
               disk_error eq_refl eq_refl).
Defined.

Lemma cognify_endpoint_outcomes_witness :
  Main.run_cognify (sample_world None (Ok (PList [])) (Ok (PList [])))
                   (sample_indexing (Ok tt) (Raise disk_error)) None
  = (Some {| data_dir := "./cognee_data"; _initialized := true; _evidence_map := [] |},
     Main.Returned {| Main.cognify_status := "error";
                      Main.cognify_message := Some "disk full"%string |}).
Proof.
  exact (proj1 (proj2 (cognify_endpoint_outcomes
                         (sample_world None (Ok (PList [])) (Ok (PList [])))
                         (sample_indexing (Ok tt) (Raise disk_error)) None))
               {| data_dir := "./cognee_data"; _initialized := true; _evidence_map := [] |}
               disk_error eq_refl eq_refl).
Defined.

(** X18.  A failed [GET /health] answers ["error"] with the message
    ["Cognee initialization failed"] and leaves the module-level client
    created but not initialized, so the next request runs initialization
    again, on the data directory chosen at creation, and answers ["ok"] once
    it goes through. *)
Theorem health_endpoint_retries
        (w w' : world) (_client : option CogneeClient) (e : exn) (c1 : CogneeClient) :
  initialize w (snd (get_cognee_client w _client)) = Raise e ->
  initialize w' (snd (get_cognee_client w _client)) = Ok c1 ->
  Main.health_check w _client
  = (Some (snd (get_cognee_client w _client)),
     Main.Returned {| Main.health_status := "error";
                      Main.health_message := Some "Cognee initialization failed"%string |})
  /\ _initialized (snd (get_cognee_client w _client)) = false
  /\ Main.health_check w' (fst (Main.health_check w _client))
     = (Some c1, Main.Returned {| Main.health_status := "ok";
                                  Main.health_message := None |})
  /\ data_dir c1 = data_dir (snd (get_cognee_client w _client)).
Proof.
  intros Hfail Hok.
  assert (H1 : Main.health_check w _client
               = (Some (snd (get_cognee_client w _client)),
                  Main.Returned {| Main.health_status := "error";
                                   Main.health_message :=
                                     Some "Cognee initialization failed"%string |})).
  { unfold Main.health_check.
    destruct (get_cognee_client w _client) as [g client]. cbn [snd] in *.
    unfold health_check. now rewrite Hfail. }
  split; [exact H1|]. split; [|split].
  - unfold initialize in Hfail.
    destruct (_initialized (snd (get_cognee_client w _client))); [discriminate|reflexivity].
  - rewrite H1. cbn [fst]. unfold Main.health_check.
    rewrite get_cognee_client_some. unfold health_check. now rewrite Hok.
  - now destruct (initialize_once w' w' _ _ Hok) as [_ [Hd _]].
Qed.

Lemma health_endpoint_retries_witness :
  Main.health_check (sample_world None (Ok (PList [])) (Ok (PList [])))
                    (fst (Main.health_check read_only_world None))
  = (Some {| data_dir := "./cognee_data"; _initialized := true; _evidence_map := [] |},
     Main.Returned {| Main.health_status := "ok"; Main.health_message := None |}).
Proof.
  exact (proj1 (proj2 (proj2 (health_endpoint_retries
                                read_only_world
                                (sample_world None (Ok (PList [])) (Ok (PList [])))
                                None
                                (Exn "PermissionError" "read-only file system")
                                {| data_dir := "./cognee_data"; _initialized := true;
                                   _evidence_map := [] |}
                                eq_refl eq_refl)))).
Defined.
